(** * Master Compass: the build-time data model generator

    A shallow embedding of the generator that the Vite plug-in runs
    ([generateDataModels.js], kept with [build/vite-plugin-data-generator.js],
    whose line numbers are the ones quoted below): the functions
    [formatNodeName], [getViewDirectories], [buildFromDirectory] and
    [generateAll], over a model of the JavaScript values they build, of
    the directory tree they read and of the console and output directory
    they write. *)

From Stdlib Require Import ZArith Ascii String.
From stdpp Require Import base numbers list sorting strings pretty gmap.

Set Warnings "-register-all".
Open Scope string_scope.

(** ** Strings

    A JavaScript string is modelled by its sequence of code units, one
    [ascii] each (code units below 256).  The functions below look at
    ASCII characters only, as the regular expressions of the source do. *)

Module Str.

Definition code (c : ascii) : nat := nat_of_ascii c.

(** [\w] without the unicode flag: [A-Za-z0-9_]. *)
Definition isWordChar (c : ascii) : bool :=
  let n := code c in
  (((48 <=? n) && (n <=? 57)) || ((65 <=? n) && (n <=? 90))
   || (n =? 95) || ((97 <=? n) && (n <=? 122)))%nat.

(** [char.toUpperCase()] on a one-character match of [\w]. *)
Definition toUpperCase (c : ascii) : ascii :=
  let n := code c in
  if ((97 <=? n) && (n <=? 122))%nat then ascii_of_nat (n - 32) else c.

(** [s.startsWith(".")]. *)
Definition startsWithDot (s : string) : bool :=
  match s with
  | String c _ => Ascii.eqb c "."
  | EmptyString => false
  end.

(** The character at index [i], if any. *)
Definition at_ (s : string) (i : nat) : option ascii := String.get i s.

(** Line feed, the [\n] of a template literal. *)
Definition LF : string := String "010" EmptyString.

End Str.

(** [folderName.replace(/-/g, " ")] *)
Fixpoint replaceHyphens (s : string) : string :=
  match s with
  | EmptyString => EmptyString
  | String c rest =>
      String (if Ascii.eqb c "-" then " "%char else c) (replaceHyphens rest)
  end.

(** [s.replace(/\b\w/g, (char) => char.toUpperCase())].  The scan goes
    left to right over the input; [prevWord] tells whether the code unit
    before the current one is a word character, so that [\b\w] matches
    exactly at a word character whose predecessor is none. *)
Fixpoint capitalizeWords (prevWord : bool) (s : string) : string :=
  match s with
  | EmptyString => EmptyString
  | String c rest =>
      String (if Str.isWordChar c && negb prevWord then Str.toUpperCase c else c)
             (capitalizeWords (Str.isWordChar c) rest)
  end.

(** [formatNodeName(folderName)] *)
Definition formatNodeName (folderName : string) : string :=
  capitalizeWords false (replaceHyphens folderName).

(** ** JavaScript values *)

(** Numbers: the integers and [NaN]; only their truthiness and identity
    are observed by the generator. *)
Inductive JsNum :=
| Num (z : Z)
| NaN.

(** Plain data: what a [_settings.js] module exports and what the
    generator builds.  An object lists its own properties in insertion
    order. *)
Inductive JsVal :=
| VUndefined
| VNull
| VBool (b : bool)
| VNum (n : JsNum)
| VStr (s : string)
| VArr (items : list JsVal)
| VObj (props : list (string * JsVal)).

Module Js.

(** ToBoolean. *)
Definition truthy (v : JsVal) : bool :=
  match v with
  | VUndefined | VNull => false
  | VBool b => b
  | VNum (Num z) => negb (z =? 0)%Z
  | VNum NaN => false
  | VStr s => negb (String.eqb s "")
  | VArr _ | VObj _ => true
  end.

(** [a || b] *)
Definition or (a b : JsVal) : JsVal := if truthy a then a else b.

Fixpoint lookup (k : string) (props : list (string * JsVal)) : option JsVal :=
  match props with
  | [] => None
  | (k', v) :: rest => if String.eqb k k' then Some v else lookup k rest
  end.

(** [k in o] for an object of own properties. *)
Definition has (o : JsVal) (k : string) : bool :=
  match o with
  | VObj props => if lookup k props is Some _ then true else false
  | _ => false
  end.

(** [o.k] for the keys the generator reads: an own property of an
    object, [undefined] on anything else that is not nullish. *)
Definition get (o : JsVal) (k : string) : JsVal :=
  match o with
  | VObj props => default VUndefined (lookup k props)
  | _ => VUndefined
  end.

Fixpoint assign (k : string) (v : JsVal) (props : list (string * JsVal))
  : list (string * JsVal) :=
  match props with
  | [] => [(k, v)]
  | (k', v') :: rest =>
      if String.eqb k k' then (k, v) :: rest else (k', v') :: assign k v rest
  end.

(** [o.k = v] *)
Definition set (o : JsVal) (k : string) (v : JsVal) : JsVal :=
  match o with
  | VObj props => VObj (assign k v props)
  | _ => o
  end.

Definition isString (v : JsVal) : bool :=
  match v with VStr _ => true | _ => false end.

End Js.

(** ** The host

    What Node.js supplies and the repository does not define:
    [String.prototype.localeCompare] (the collation of the process
    locale), [JSON.stringify(value, null, 2)] and [path.join].  The
    collation is a total preorder, which is what ECMAScript asks of a
    consistent comparator. *)
Class Host := {
  localeCompare : string → string → Z;
  localeCompare_total : ∀ a b,
    (localeCompare a b ≤ 0)%Z ∨ (localeCompare b a ≤ 0)%Z;
  localeCompare_trans : ∀ a b c,
    (localeCompare a b ≤ 0)%Z → (localeCompare b c ≤ 0)%Z →
    (localeCompare a c ≤ 0)%Z;
  JSON_stringify : JsVal → string;
  path_join : string → string → string;
}.

(** ** [Array.prototype.sort]

    The sort is stable; for a consistent comparator its result is the
    one stable sorted arrangement, computed here by insertion from the
    right. *)

Section ArraySort.
Context {A : Type} (comparefn : A → A → Z).

Fixpoint insertSorted (x : A) (l : list A) : list A :=
  match l with
  | [] => [x]
  | y :: rest =>
      if (comparefn x y <=? 0)%Z then x :: y :: rest
      else y :: insertSorted x rest
  end.

Definition arraySort (l : list A) : list A := foldr insertSorted [] l.

Definition before (x y : A) : Prop := (comparefn x y ≤ 0)%Z.

End ArraySort.

(** The default comparator on strings: code unit order. *)
Definition defaultCompare (x y : string) : Z :=
  match String.compare x y with
  | Lt => (-1)%Z
  | Eq => 0%Z
  | Gt => 1%Z
  end.

(** ** The world: console and output directory *)

Inductive ConsoleCall :=
| ConsoleLog (args : list JsVal)
| ConsoleWarn (args : list JsVal).

Record World := mkWorld {
  console : list ConsoleCall;          (* oldest call first *)
  outputDirExists : bool;
  outputFiles : gmap string string;    (* path to content *)
}.

Inductive Exception :=
| TypeError (message : string)
| ENOTDIR (path : string)
| ENOENT (path : string).

(** How a call ends.  [EngineDefined] stands for the one place where the
    language leaves the outcome to the engine (see [sortChildren]). *)
Inductive Outcome (A : Type) :=
| Returned (a : A)
| Threw (e : Exception)
| EngineDefined.
Arguments Returned {A} a.
Arguments Threw {A} e.
Arguments EngineDefined {A}.

Definition M (A : Type) : Type := World → Outcome A * World.

#[export] Instance M_ret : MRet M := λ A a w, (Returned a, w).
#[export] Instance M_bind : MBind M := λ A B f m w,
  match m w with
  | (Returned a, w') => f a w'
  | (Threw e, w') => (Threw e, w')
  | (EngineDefined, w') => (EngineDefined, w')
  end.

Definition throw {A} (e : Exception) : M A := λ w, (Threw e, w).
Definition engineDefined {A} : M A := λ w, (EngineDefined, w).

Definition console_warn (args : list JsVal) : M unit := λ w,
  (Returned (), mkWorld (console w ++ [ConsoleWarn args]) (outputDirExists w) (outputFiles w)).
Definition console_log (args : list JsVal) : M unit := λ w,
  (Returned (), mkWorld (console w ++ [ConsoleLog args]) (outputDirExists w) (outputFiles w)).

(** [for (const x of xs) { ys.push(await body(x)) }] *)
Fixpoint forOf {A B} (xs : list A) (body : A → M B) : M (list B) :=
  match xs with
  | [] => mret []
  | x :: rest => y ← body x; ys ← forOf rest body; mret (y :: ys)
  end.

(** ** The data directory *)

(** What [await import(...)] of a [_settings.js] does: it resolves to a
    module whose [default] is a value ([undefined] without a default
    export), or rejects with the value thrown.  The time in the query
    string makes every call load the file anew. *)
Inductive ImportResult :=
| Exports (default : JsVal)
| Rejects (error : JsVal).

(** A directory entry: a directory with, possibly, its [_settings.js]
    and with its entries in the order [readdirSync] yields them, or
    anything that is not a directory. *)
Inductive FsEntry :=
| File
| Folder (settingsFile : option ImportResult) (entries : list (string * FsEntry)).

Definition isFolder (e : FsEntry) : bool :=
  match e with Folder _ _ => true | File => false end.

Definition DEFAULTS_LEAF_SIZE : JsVal := VNum (Num 1000).

(** ** The generator *)

(** The entry [readdirSync(dirPath, { withFileTypes: true })] yields,
    with the call that compiles the directory behind it. *)
Record Dirent := mkDirent {
  dirent_name : string;
  dirent_isDirectory : bool;
  dirent_build : string → string → M JsVal;
}.

(** [error.message] in the [catch]: reading a member of [null] or
    [undefined] throws. *)
Definition errorMessage (error : JsVal) : M JsVal :=
  match error with
  | VUndefined | VNull =>
      throw (TypeError "Cannot read properties of null or undefined (reading 'message')")
  | _ => mret (Js.get error "message")
  end.

Section Generator.
Context `{Host}.

(** [getViewDirectories(dataDir)] *)
Definition getViewDirectories (dataDir : option FsEntry) (dataDirPath : string)
  : M (list string) :=
  match dataDir with
  | None =>
      console_warn [VStr ("Data directory not found: " ++ dataDirPath)];;
      mret []
  | Some File => throw (ENOTDIR dataDirPath)
  | Some (Folder _ entries) =>
      mret (arraySort defaultCompare
              (map fst
                 (List.filter
                    (λ d, isFolder d.2 && negb (Str.startsWithDot d.1))
                    entries)))
  end.

(** [buildFromDirectory], the settings: lines 219 to 235. *)
Definition loadSettings (settingsPath : string) (settingsFile : option ImportResult)
  : M JsVal :=
  match settingsFile with
  | None => mret (VObj [])
  | Some (Exports default) => mret (Js.or default (VObj []))
  | Some (Rejects error) =>
      message ← errorMessage error;
      console_warn
        [VStr ("Failed to load settings from " ++ settingsPath ++ ":"); message];;
      mret (VObj [])
  end.

(** [buildFromDirectory], the node before its size or children: lines
    238 to 250. *)
Definition startNode (settings : JsVal) (nodeName : string) : JsVal :=
  let node :=
    VObj [("name", Js.or (Js.get settings "name") (VStr (formatNodeName nodeName)));
          ("description",
            Js.or (Js.get settings "description")
                  (VStr (formatNodeName nodeName ++ " segment")))] in
  let node :=
    if Js.truthy (Js.get settings "nodeColor")
    then Js.set node "nodeColor" (Js.get settings "nodeColor") else node in
  let node :=
    if Js.truthy (Js.get settings "owner")
    then Js.set node "owner" (Js.get settings "owner") else node in
  let node :=
    if Js.truthy (Js.get settings "contact")
    then Js.set node "contact" (Js.get settings "contact") else node in
  node.

(** The subdirectories of line 253, sorted by name. *)
Definition qualifies (d : Dirent) : bool :=
  dirent_isDirectory d
  && negb (Str.startsWithDot (dirent_name d))
  && negb (String.eqb (dirent_name d) "node_modules").

Definition subdirsOf (dirents : list Dirent) : list Dirent :=
  arraySort (λ a b, defaultCompare (dirent_name a) (dirent_name b))
            (List.filter qualifies dirents).

(** [(a, b) => a.name.localeCompare(b.name)] on names that are strings. *)
Definition byName (a b : JsVal) : Z :=
  match Js.get a "name", Js.get b "name" with
  | VStr x, VStr y => localeCompare x y
  | _, _ => 0%Z
  end.

Definition nameIsString (node : JsVal) : bool := Js.isString (Js.get node "name").

(** [node.children.sort((a, b) => a.name.localeCompare(b.name))].
    With string names the comparator never throws.  Otherwise an array
    of at most one element is not compared at all; when no name is a
    string every comparison throws a TypeError, the receiver having no
    [localeCompare]; and when some are and some are not, whether a
    comparison has such a receiver depends on the order in which the
    engine compares. *)
Definition sortChildren (children : list JsVal) : M (list JsVal) :=
  if forallb nameIsString children then mret (arraySort byName children)
  else if (length children <=? 1)%nat then mret children
  else if forallb (λ c, negb (nameIsString c)) children
  then throw (TypeError "a.name.localeCompare is not a function")
  else engineDefined.

(** [buildFromDirectory], from the settings to the result, over the
    entries of the directory. *)
Definition buildNode (settingsFile : option ImportResult) (dirents : list Dirent)
    (dirPath nodeName : string) : M JsVal :=
  let settingsPath := path_join dirPath "_settings.js" in
  settings ← loadSettings settingsPath settingsFile;
  let node := startNode settings nodeName in
  let subdirs := subdirsOf dirents in
  if (length subdirs =? 0)%nat then
    mret (Js.set node "size" (Js.or (Js.get settings "size") DEFAULTS_LEAF_SIZE))
  else
    children ←
      forOf subdirs
        (λ subdir,
           let childPath := path_join dirPath (dirent_name subdir) in
           dirent_build subdir childPath (dirent_name subdir));
    children ← sortChildren children;
    mret (Js.set node "children" (VArr children)).

(** [buildFromDirectory(dirPath, nodeName)], [dir] being what is at
    [dirPath]. *)
Fixpoint buildFromDirectory (dir : FsEntry) (dirPath nodeName : string) {struct dir}
  : M JsVal :=
  match dir with
  | File => throw (ENOTDIR dirPath)
  | Folder settingsFile entries =>
      buildNode settingsFile
        (map (λ d, mkDirent d.1 (isFolder d.2) (buildFromDirectory d.2)) entries)
        dirPath nodeName
  end.

(** What is at [path.join(dataDir, name)]. *)
Definition entryAt (dataDir : option FsEntry) (name : string) : option FsEntry :=
  match dataDir with
  | Some (Folder _ entries) => snd <$> List.find (λ d, String.eqb d.1 name) entries
  | _ => None
  end.

(** [fs.existsSync(outputDir)], [fs.mkdirSync(outputDir, { recursive:
    true })] and [fs.writeFileSync(path, content)], on an output
    directory that the process can make and write to: a call that
    throws, for a file in the place of the directory or for want of
    permission, is outside the model. *)
Definition existsSync_outputDir : M bool := λ w, (Returned (outputDirExists w), w).
Definition mkdirSync_outputDir : M unit := λ w,
  (Returned (), mkWorld (console w) true (outputFiles w)).
Definition writeFileSync (path content : string) : M unit := λ w,
  (Returned (), mkWorld (console w) (outputDirExists w) (<[path := content]> (outputFiles w))).

(** [`export default ${JSON.stringify(data, null, 2)};\n`] *)
Definition moduleSource (data : JsVal) : string :=
  "export default " ++ JSON_stringify data ++ ";" ++ Str.LF.

(** The loop of [generateAll] over the views. *)
Fixpoint generateViews (dataDir : option FsEntry) (dataDirPath outputDir : string)
    (views : list string) (generatedViews : JsVal) : M JsVal :=
  match views with
  | [] => mret generatedViews
  | viewName :: rest =>
      let viewPath := path_join dataDirPath viewName in
      viewData ←
        match entryAt dataDir viewName with
        | Some dir => buildFromDirectory dir viewPath viewName
        | None => throw (ENOENT viewPath)
        end;
      let generatedViews := Js.set generatedViews viewName viewData in
      let outputPath := path_join outputDir (viewName ++ ".js") in
      writeFileSync outputPath (moduleSource viewData);;
      console_log [VStr ("Generated: " ++ outputPath)];;
      generateViews dataDir dataDirPath outputDir rest generatedViews
  end.

(** [generateAll(dataDir, outputDir)] *)
Definition generateAll (dataDir : option FsEntry) (dataDirPath outputDir : string)
  : M JsVal :=
  present ← existsSync_outputDir;
  (if present : bool then mret () else mkdirSync_outputDir);;
  views ← getViewDirectories dataDir dataDirPath;
  generatedViews ← generateViews dataDir dataDirPath outputDir views (VObj []);
  let indexPath := path_join outputDir "index.js" in
  writeFileSync indexPath (moduleSource generatedViews);;
  console_log [VStr ("Generated: " ++ indexPath)];;
  mret generatedViews.

End Generator.

(** ** Compiled nodes *)

(** The metadata of a directory as [buildFromDirectory] ends up with:
    the default export if truthy, else the empty object. *)
Definition metadataOf (settingsFile : option ImportResult) : JsVal :=
  match settingsFile with
  | Some (Exports default) => Js.or default (VObj [])
  | _ => VObj []
  end.

(** An entry [buildFromDirectory] descends into. *)
Definition qualifyingEntry (d : string * FsEntry) : bool :=
  isFolder d.2 && negb (Str.startsWithDot d.1) && negb (String.eqb d.1 "node_modules").

Definition isLeafDirectory (entries : list (string * FsEntry)) : Prop :=
  List.filter qualifyingEntry entries = [].

(** [n] is a node of the tree [t]: [t] itself or a node of one of its
    children. *)
Inductive inTree (n : JsVal) : JsVal → Prop :=
| inTree_here : inTree n n
| inTree_child t kids c :
    Js.get t "children" = VArr kids → c ∈ kids → inTree n c → inTree n t.

Definition leafNode (settings : JsVal) (nodeName : string) : JsVal :=
  Js.set (startNode settings nodeName) "size"
         (Js.or (Js.get settings "size") DEFAULTS_LEAF_SIZE).

Definition branchNode (settings : JsVal) (nodeName : string) (children : list JsVal)
  : JsVal :=
  Js.set (startNode settings nodeName) "children" (VArr children).

Definition direntsOf (build : FsEntry → string → string → M JsVal)
    (entries : list (string * FsEntry)) : list Dirent :=
  map (λ d, mkDirent d.1 (isFolder d.2) (build d.2)) entries.

Section BuiltNodes.
Context `{Host}.

(** The nodes the generator can return. *)
Inductive Built : JsVal → Prop :=
| Built_leaf settings nodeName : Built (leafNode settings nodeName)
| Built_branch settings nodeName kids sorted w w' :
    kids ≠ [] →
    (∀ k, k ∈ kids → Built k) →
    sortChildren kids w = (Returned sorted, w') →
    Built (branchNode settings nodeName sorted).

End BuiltNodes.

(** ** Worlds, names and descriptions *)

(** A world to start from: nothing printed, no output directory. *)
Definition emptyWorld : World := mkWorld [] false ∅.

(** Whether the code unit at index [i] of [s] starts a word: it has no
    word character before it. *)
Definition startsWord (s : string) (i : nat) : bool :=
  match i with
  | 0 => true
  | S j => if Str.at_ s j is Some p then negb (Str.isWordChar p) else true
  end.

(** The display name in words, code unit by code unit: a hyphen becomes
    a space, the first character of a word (a run of word characters)
    is uppercased, anything else stays. *)
Definition titleCasedAt (s : string) (i : nat) : option ascii :=
  c ← Str.at_ s i;
  Some (if Ascii.eqb c "-" then " "%char
        else if Str.isWordChar c && startsWord s i then Str.toUpperCase c
        else c).

(** The description as the specification words it: the metadata value
    if present, else the resolved name, which is the [name] of the
    metadata if present and non-empty and else the formatted directory
    name, followed by [" segment"]. *)
Definition resolvedName (metadata : JsVal) (nodeName : string) : string :=
  match Js.get metadata "name" with
  | VStr name => if String.eqb name "" then formatNodeName nodeName else name
  | _ => formatNodeName nodeName
  end.

Definition describedDescription (metadata : JsVal) (nodeName : string) : JsVal :=
  match Js.get metadata "description" with
  | VUndefined => VStr (resolvedName metadata nodeName ++ " segment")
  | description => description
  end.

Definition description_as_described `{Host} (dir : FsEntry) (dirPath nodeName : string)
    (w : World) : Prop :=
  ∀ settingsFile entries node w',
    dir = Folder settingsFile entries →
    buildFromDirectory dir dirPath nodeName w = (Returned node, w') →
    Js.get node "description" = describedDescription (metadataOf settingsFile) nodeName.

(** The world after the warning about [settingsPath]. *)
Definition warned (settingsPath : string) (message : JsVal) (w : World) : World :=
  mkWorld
    (console w
     ++ [ConsoleWarn [VStr ("Failed to load settings from " ++ settingsPath ++ ":"); message]])
    (outputDirExists w) (outputFiles w).

Definition nullish (v : JsVal) : bool :=
  match v with VUndefined | VNull => true | _ => false end.

(** C3 as the specification has it: [children[i].name <=
    children[i+1].name], the comparison of two strings by [<=], which
    goes by code units. *)
Definition sorted_as_described `{Host} (dir : FsEntry) (dirPath nodeName : string)
    (w : World) : Prop :=
  ∀ tree w',
    buildFromDirectory dir dirPath nodeName w = (Returned tree, w') →
    ∀ node kids, inTree node tree → Js.get node "children" = VArr kids →
    ∀ i a b, kids !! i = Some a → kids !! S i = Some b →
    ∃ x y, Js.get a "name" = VStr x ∧ Js.get b "name" = VStr y
           ∧ (defaultCompare x y ≤ 0)%Z.

(** C7 as the specification has it: hyphens become spaces, then the
    first letter of every word is uppercased, the words being what
    whitespace separates. *)
Definition isWhitespace (c : ascii) : bool :=
  let n := Str.code c in
  (((9 <=? n) && (n <=? 13)) || (n =? 32))%nat.

Fixpoint capitalizeAfterWhitespace (atStart : bool) (s : string) : string :=
  match s with
  | EmptyString => EmptyString
  | String c rest =>
      String (if atStart then Str.toUpperCase c else c)
             (capitalizeAfterWhitespace (isWhitespace c) rest)
  end.

Definition describedName (nodeName : string) : string :=
  capitalizeAfterWhitespace true (replaceHyphens nodeName).

Definition name_as_described `{Host} (dir : FsEntry) (dirPath nodeName : string)
    (w : World) : Prop :=
  ∀ settingsFile entries node w',
    dir = Folder settingsFile entries →
    buildFromDirectory dir dirPath nodeName w = (Returned node, w') →
    Js.get (metadataOf settingsFile) "name" = VUndefined →
    Js.get node "name" = VStr (describedName nodeName).

(** The settings of a directory let it compile: the import does not
    reject with [null] or [undefined], and the [name] of the metadata,
    if truthy, is a string. *)
Definition settingsCompile (settingsFile : option ImportResult) : bool :=
  (if settingsFile is Some (Rejects error) then negb (nullish error) else true)
  && (negb (Js.truthy (Js.get (metadataOf settingsFile) "name"))
      || Js.isString (Js.get (metadataOf settingsFile) "name")).

(** Every directory of the tree has such settings. *)
Fixpoint compilable (e : FsEntry) : bool :=
  match e with
  | File => true
  | Folder settingsFile entries =>
      settingsCompile settingsFile && forallb (λ d, compilable d.2) entries
  end.

Definition isView (d : string * FsEntry) : bool :=
  isFolder d.2 && negb (Str.startsWithDot d.1).

(** ** Readings of a directory tree *)

(** Two readings of one directory tree: at every directory the same
    settings and the same entries, in whatever order [readdirSync]
    yields them. *)
Inductive sameContent : FsEntry → FsEntry → Prop :=
| same_File : sameContent File File
| same_Folder settingsFile l1 l l2 :
    l1 ≡ₚ l →
    Forall2 (λ a b, a.1 = b.1 ∧ sameContent a.2 b.2) l l2 →
    sameContent (Folder settingsFile l1) (Folder settingsFile l2).

(** No directory has two entries of one name. *)
Fixpoint uniqueNames (e : FsEntry) : bool :=
  match e with
  | File => true
  | Folder _ entries =>
      bool_decide (NoDup (map fst entries)) && forallb (λ d, uniqueNames d.2) entries
  end.

(** Entries of [readdirSync] that are alike: the same name and kind,
    and builds that run alike. *)
Definition alike (x y : Dirent) : Prop :=
  dirent_name x = dirent_name y
  ∧ dirent_isDirectory x = dirent_isDirectory y
  ∧ ∀ p n w, dirent_build x p n w = dirent_build y p n w.

(** *** What a run adds to the world

    The generator prints and writes but, the test for the output
    directory apart, reads nothing back: a run from any world is the run
    from the empty world, laid over the world it starts from. *)

Definition extend (w d : World) : World :=
  mkWorld (console w ++ console d)
          (outputDirExists w || outputDirExists d)
          (outputFiles d ∪ outputFiles w).

Definition framed {A} (m : M A) : Prop :=
  ∀ w, m w = ((m emptyWorld).1, extend w (m emptyWorld).2).

(** ** A reference host

    One host to run the generator on: a collation that orders strings
    without regard to case first and puts lower case before upper case
    among strings that differ in case only; the JSON text of
    [JSON.stringify(value, null, 2)]; and the POSIX [path.join] on a
    normalized directory path and a plain name. *)

Module Reference.

Definition toLowerChar (c : ascii) : ascii :=
  let n := Str.code c in
  if ((65 <=? n) && (n <=? 90))%nat then ascii_of_nat (n + 32) else c.

Fixpoint toLowerCase (s : string) : string :=
  match s with
  | EmptyString => EmptyString
  | String c rest => String (toLowerChar c) (toLowerCase rest)
  end.

Definition collate (a b : string) : Z :=
  match String.compare (toLowerCase a) (toLowerCase b) with
  | Lt => (-1)%Z
  | Gt => 1%Z
  | Eq => defaultCompare b a
  end.

Definition join (a b : string) : string := a ++ "/" ++ b.

(** *** JSON text *)

Definition quoteMark : string := String "034" EmptyString.

Definition hexDigit (n : nat) : ascii :=
  if (n <? 10)%nat then ascii_of_nat (48 + n) else ascii_of_nat (87 + n).

Definition escapeChar (c : ascii) : string :=
  let n := Str.code c in
  if (n =? 34)%nat then "\" ++ quoteMark
  else if (n =? 92)%nat then "\\"
  else if (n =? 8)%nat then "\b"
  else if (n =? 9)%nat then "\t"
  else if (n =? 10)%nat then "\n"
  else if (n =? 12)%nat then "\f"
  else if (n =? 13)%nat then "\r"
  else if (n <? 32)%nat
       then "\u00" ++ String (hexDigit (n / 16)) (String (hexDigit (n mod 16)) EmptyString)
  else String c EmptyString.

Fixpoint escape (s : string) : string :=
  match s with
  | EmptyString => EmptyString
  | String c rest => escapeChar c ++ escape rest
  end.

(** QuoteJSONString *)
Definition quoteJSONString (s : string) : string :=
  quoteMark ++ escape s ++ quoteMark.

Definition digitValue (c : ascii) : option N :=
  let n := Str.code c in
  if ((48 <=? n) && (n <=? 57))%nat then Some (N.of_nat (n - 48)) else None.

Fixpoint digitsValue (acc : N) (s : string) : option N :=
  match s with
  | EmptyString => Some acc
  | String c rest =>
      match digitValue c with
      | Some d => digitsValue (acc * 10 + d) rest
      | None => None
      end
  end.

(** The array index a property key denotes, if it is one. *)
Definition arrayIndex (k : string) : option N :=
  match k with
  | EmptyString => None
  | String "0" EmptyString => Some 0%N
  | String "0" _ => None
  | _ =>
      match digitsValue 0 k with
      | Some n => if (n <? 4294967295)%N then Some n else None
      | None => None
      end
  end.

(** The own properties in the order of enumeration: array indices
    ascending, then the other keys as inserted. *)
Definition enumerate {V} (props : list (string * V)) : list (string * V) :=
  let index (p : string * V) := default 0%N (arrayIndex p.1) in
  arraySort (λ p q, Z.of_N (index p) - Z.of_N (index q))%Z
            (List.filter (λ p, bool_decide (is_Some (arrayIndex p.1))) props)
  ++ List.filter (λ p, negb (bool_decide (is_Some (arrayIndex p.1)))) props.

Fixpoint joinWith (sep : string) (parts : list string) : string :=
  match parts with
  | [] => ""
  | [part] => part
  | part :: rest => part ++ sep ++ joinWith sep rest
  end.

Definition wrap (opening closing indent : string) (parts : list string) : string :=
  match parts with
  | [] => opening ++ closing
  | _ =>
      let inner := indent ++ "  " in
      opening ++ Str.LF ++ inner
      ++ joinWith ("," ++ Str.LF ++ inner) parts
      ++ Str.LF ++ indent ++ closing
  end.

(** SerializeJSONProperty with a gap of two spaces; [None] is the
    [undefined] of a value that has no JSON text.  Integers print in
    decimal, as JavaScript prints those below ten to the 21st. *)
Fixpoint serialize (indent : string) (v : JsVal) : option string :=
  match v with
  | VUndefined => None
  | VNull => Some "null"
  | VBool true => Some "true"
  | VBool false => Some "false"
  | VNum (Num z) => Some (pretty z)
  | VNum NaN => Some "null"
  | VStr s => Some (quoteJSONString s)
  | VArr items =>
      Some (wrap "[" "]" indent
              (map (λ item, default "null" (serialize (indent ++ "  ") item)) items))
  | VObj props =>
      Some (wrap "{" "}" indent
              (omap (λ p : string * option string,
                       (λ text, quoteJSONString p.1 ++ ": " ++ text) <$> p.2)
                    (enumerate
                       (map (λ p, (p.1, serialize (indent ++ "  ") p.2)) props))))
  end.

(** [`${JSON.stringify(value, null, 2)}`] *)
Definition stringify (v : JsVal) : string := default "undefined" (serialize "" v).

(** The collation is a total preorder. *)
#[export] Instance host : Host.
Proof.
  refine {| localeCompare := collate; JSON_stringify := stringify; path_join := join |}.
  - intros a b. unfold collate, defaultCompare.
    rewrite (String.compare_antisym (toLowerCase a) (toLowerCase b)),
            (String.compare_antisym a b).
    destruct (String.compare (toLowerCase b) (toLowerCase a)), (String.compare b a);
      simpl; lia.
  - assert (∀ x y, (defaultCompare x y ≤ 0)%Z ↔ String.le x y) as Hle.
    { intros x y. unfold defaultCompare, String.le, String.leb.
      destruct (String.compare x y); simpl; split; intros ?; (done || lia). }
    assert (∀ x y z, String.compare x y = Lt → String.compare y z = Lt →
                     String.compare x z = Lt) as Hlt.
    { intros x y z Hxy Hyz.
      assert (String.le x z) as Hxz.
      { trans y; unfold String.le, String.leb; [by rewrite Hxy|by rewrite Hyz]. }
      unfold String.le, String.leb in Hxz.
      destruct (String.compare x z) eqn:E; [|done..].
      apply String.compare_eq_iff in E as ->.
      rewrite String.compare_antisym, Hxy in Hyz. done. }
    intros a b c. unfold collate.
    destruct (String.compare (toLowerCase a) (toLowerCase b)) eqn:Hab; [| |lia];
      destruct (String.compare (toLowerCase b) (toLowerCase c)) eqn:Hbc; [| |lia| | |lia].
    + apply String.compare_eq_iff in Hab. rewrite Hab, Hbc.
      rewrite !Hle. intros ??. by trans b.
    + apply String.compare_eq_iff in Hab. rewrite Hab, Hbc. lia.
    + apply String.compare_eq_iff in Hbc. rewrite <-Hbc, Hab. lia.
    + rewrite (Hlt _ _ _ Hab Hbc). lia.
Defined.

End Reference.

(** ** Sample directories *)

Module Scenario.

Definition Alpha : string * FsEntry := ("Alpha", Folder None []).

Definition Beta : string * FsEntry :=
  ("Beta",
   Folder (Some (Exports (VObj [("description", VStr "b")]))) [("_settings.js", File)]).

Definition AlphaNode : JsVal :=
  VObj [("name", VStr "Alpha"); ("description", VStr "Alpha segment");
        ("size", VNum (Num 1000))].

Definition BetaNode : JsVal :=
  VObj [("name", VStr "Beta"); ("description", VStr "b"); ("size", VNum (Num 1000))].

(** The node the generator returns for [ViewA]. *)
Definition ViewANode : JsVal :=
  VObj [("name", VStr "ViewA"); ("description", VStr "ViewA segment");
        ("children", VArr [AlphaNode; BetaNode])].

(** The node the specification gives for [ViewA]. *)
Definition describedViewANode : JsVal :=
  VObj [("name", VStr "View A"); ("description", VStr "View A segment");
        ("children", VArr [AlphaNode; BetaNode])].

End Scenario.

Definition ViewA : FsEntry := Folder None [Scenario.Beta; Scenario.Alpha].

Definition zeroSized : FsEntry :=
  Folder (Some (Exports (VObj [("description", VStr "Card payments");
                               ("size", VNum (Num 0))]))) [("_settings.js", File)].

Definition zeroSizedNode : JsVal :=
  VObj [("name", VStr "Payments"); ("description", VStr "Card payments");
        ("size", VNum (Num 1000))].

Definition timeAndAttendance : FsEntry := Folder None [].

Definition renamed : FsEntry :=
  Folder (Some (Exports (VObj [("name", VStr "Time & Attendance")])))
         [("_settings.js", File)].

Definition renamedNode : JsVal :=
  VObj [("name", VStr "Time & Attendance");
        ("description", VStr "Time And Attendance segment");
        ("size", VNum (Num 1000))].

(** The settings of the settings reference, with an owner and a
    contact address. *)
Definition attributed : FsEntry :=
  Folder (Some (Exports (VObj [("description", VStr "Employee time tracking");
                               ("owner", VStr "Workforce Management Team");
                               ("contactEmail", VStr "workforce-team@example.com")])))
         [("_settings.js", File)].

Definition payments : string * FsEntry :=
  ("payments",
   Folder (Some (Exports (VObj [("description", VStr "Card payments")])))
          [("_settings.js", File)]).

Definition dataAsListed : FsEntry :=
  Folder None [("ViewA", Folder None [Scenario.Alpha; Scenario.Beta]);
               ("ViewB", Folder None [payments]); (".git", Folder None [])].

Definition dataListedOtherwise : FsEntry :=
  Folder None [(".git", Folder None []); ("ViewB", Folder None [payments]);
               ("ViewA", Folder None [Scenario.Beta; Scenario.Alpha])].

(** Two directories whose names are in one order and whose display
    names are in the other. *)
Definition shuffled : FsEntry :=
  Folder None
    [("a-team", Folder (Some (Exports (VObj [("name", VStr "Banana")])))
                       [("_settings.js", File)]);
     ("b-team", Folder (Some (Exports (VObj [("name", VStr "apple")])))
                       [("_settings.js", File)])].

Definition appleNode : JsVal :=
  VObj [("name", VStr "apple"); ("description", VStr "B Team segment");
        ("size", VNum (Num 1000))].

Definition bananaNode : JsVal :=
  VObj [("name", VStr "Banana"); ("description", VStr "A Team segment");
        ("size", VNum (Num 1000))].

Definition shuffledNode : JsVal :=
  VObj [("name", VStr "Fruit"); ("description", VStr "Fruit segment");
        ("children", VArr [appleNode; bananaNode])].

(** A directory with a full stop in its name. *)
Definition nodeJsTeam : FsEntry := Folder None [].

Definition nodeJsTeamNode : JsVal :=
  VObj [("name", VStr "Node.Js Team"); ("description", VStr "Node.Js Team segment");
        ("size", VNum (Num 1000))].

(** ** More vocabulary for the generator *)

(** The own keys of an object, in insertion order. *)
Definition keysOf (v : JsVal) : list string :=
  match v with
  | VObj props => map fst props
  | _ => []
  end.

(** The own property keys of an object in the order in which
    [Object.keys], [for...in] and [JSON.stringify] go through them:
    the array indices ascending, then the other keys as inserted. *)
Definition ownPropertyKeys (v : JsVal) : list string :=
  match v with
  | VObj props => map fst (Reference.enumerate props)
  | _ => []
  end.

(** That order for keys inserted in the order [keys]. *)
Definition keyOrder (keys : list string) : list string :=
  (arraySort (λ k l, Z.of_N (default 0%N (Reference.arrayIndex k))
                     - Z.of_N (default 0%N (Reference.arrayIndex l)))%Z
             (List.filter (λ k, bool_decide (is_Some (Reference.arrayIndex k))) keys)
   ++ List.filter (λ k, negb (bool_decide (is_Some (Reference.arrayIndex k)))) keys)%list.

(** The keys [buildFromDirectory] ever sets, in the order it sets them. *)
Definition nodeKeys : list string :=
  ["name"; "description"; "nodeColor"; "owner"; "contact"; "size"; "children"].

(** The keys of the settings that [buildFromDirectory] reads. *)
Definition settingsKeys : list string :=
  ["name"; "description"; "nodeColor"; "owner"; "contact"; "size"].

(** The subdirectories [buildFromDirectory] descends into, in the order
    of the loop: sorted by directory name. *)
Definition subdirectories (entries : list (string * FsEntry)) : list (string * FsEntry) :=
  arraySort (λ a b, defaultCompare a.1 b.1) (List.filter qualifyingEntry entries).

(** [inner] named [innerName] is [outer] named [outerName] or a
    directory [buildFromDirectory] reaches from it. *)
Inductive reaches (inner : FsEntry) (innerName : string)
  : FsEntry → string → Prop :=
| reaches_here : reaches inner innerName inner innerName
| reaches_down settingsFile entries outerName d :
    d ∈ entries → qualifyingEntry d = true →
    reaches inner innerName d.2 d.1 →
    reaches inner innerName (Folder settingsFile entries) outerName.

(** No [_settings.js] in the tree fails to load. *)
Fixpoint loadsCleanly (e : FsEntry) : bool :=
  match e with
  | File => true
  | Folder settingsFile entries =>
      (if settingsFile is Some (Rejects _) then false else true)
      && forallb (λ d, loadsCleanly d.2) entries
  end.

Definition isWarn (c : ConsoleCall) : bool :=
  match c with ConsoleWarn _ => true | ConsoleLog _ => false end.

(** The node is named [x]. *)
Definition hasName (x : string) (node : JsVal) : bool :=
  match Js.get node "name" with
  | VStr y => String.eqb x y
  | _ => false
  end.

(** Every directory of the tree has a name that is not empty. *)
Fixpoint namedEntries (e : FsEntry) : bool :=
  match e with
  | File => true
  | Folder _ entries =>
      forallb (λ d, negb (String.eqb d.1 "") && namedEntries d.2) entries
  end.

(** From [w] to [w'] nothing happened but warnings on the console. *)
Definition onlyWarnings (w w' : World) : Prop :=
  outputDirExists w' = outputDirExists w
  ∧ outputFiles w' = outputFiles w
  ∧ ∃ warnings, console w' = (console w ++ warnings)%list ∧ forallb isWarn warnings = true.

(** Every run of [m] relates the world it ends in to the world it
    starts from. *)
Definition keeps {A} (R : relation World) (m : M A) : Prop := ∀ w, R w (m w).2.

(** The import of the [_settings.js] rejects. *)
Definition rejects (settingsFile : option ImportResult) : bool :=
  if settingsFile is Some (Rejects _) then true else false.

(** The names of the views of a data directory. *)
Definition viewNames (dataDir : option FsEntry) : list string :=
  match dataDir with
  | Some (Folder _ entries) => map fst (List.filter isView entries)
  | _ => []
  end.

(** The paths [generateAll] writes to: the combined index and one module
    for each view. *)
Definition writtenBy `{Host} (dataDir : option FsEntry) (outputDir path : string) : Prop :=
  path = path_join outputDir "index.js"
  ∨ ∃ viewName, viewName ∈ viewNames dataDir
                ∧ path = path_join outputDir (viewName ++ ".js").

(** From [w] to [w'] no file outside [written] has changed. *)
Definition sameFilesOutside (written : string → Prop) (w w' : World) : Prop :=
  ∀ path, ¬ written path → outputFiles w' !! path = outputFiles w !! path.

(** From [w] to [w'] no file has gone and the output directory, if
    there, is still there. *)
Definition nothingRemoved (w w' : World) : Prop :=
  (outputDirExists w = true → outputDirExists w' = true)
  ∧ ∀ path, is_Some (outputFiles w !! path) → is_Some (outputFiles w' !! path).

(** ** The circles of the application

    A node of the [d3.hierarchy] the application draws is known by the
    way up from it: the index of the node among its parent's children,
    then that of the parent, and so on to the root, which is the empty
    way.  [node.parent] is the rest of the way, [null] at the root, and
    two nodes are the same object when their ways are equal. *)
Definition HNode := list nat.

(** [node.parent] *)
Definition parent (node : HNode) : option HNode :=
  match node with
  | [] => None
  | _ :: up => Some up
  end.

(** [while (currentNode && currentNode !== focusNode)
       { currentNode = currentNode.parent; depthFromFocus++; }]
    with where the loop stops ([None] is [null]) and the count. *)
Fixpoint climbCounting (focusNode currentNode : HNode) (depthFromFocus : nat)
  : option HNode * nat :=
  if decide (currentNode = focusNode) then (Some currentNode, depthFromFocus)
  else match currentNode with
       | [] => (None, S depthFromFocus)
       | _ :: up => climbCounting focusNode up (S depthFromFocus)
       end.

(** [while (currentNode && currentNode !== node)
       { currentNode = currentNode.parent; }] *)
Fixpoint climb (node currentNode : HNode) : option HNode :=
  if decide (currentNode = node) then Some currentNode
  else match currentNode with
       | [] => None
       | _ :: up => climb node up
       end.

(** [isNodeVisibleAtDepth(node, focusNode)] *)
Definition isNodeVisibleAtDepth (node focusNode : HNode) : bool :=
  if parent node is None then true
  else
    let '(currentNode, depthFromFocus) := climbCounting focusNode node 0 in
    if decide (currentNode = Some focusNode) then bool_decide (depthFromFocus ≤ 1)%nat
    else
      let currentNode := climb node focusNode in
      bool_decide (currentNode = Some node).

(** [const shouldShow = !node.parent || node === d || node.parent === d]
    of the labels. *)
Definition shouldShow (node d : HNode) : bool :=
  bool_decide (parent node = None)
  || bool_decide (node = d)
  || bool_decide (parent node = Some d).

(** [while (curNode) { stack.unshift(curNode); curNode = curNode.parent; }] *)
Fixpoint unshiftAncestors (curNode : HNode) (stack : list HNode) : list HNode :=
  match curNode with
  | [] => curNode :: stack
  | _ :: up => unshiftAncestors up (curNode :: stack)
  end.

(** [getNodeStack(node)] *)
Definition getNodeStack (node : HNode) : list HNode := unshiftAncestors node [].

(** [a] is [n] or one of the nodes above it, by [parent]. *)
Inductive ancestorOrSelf (a : HNode) : HNode → Prop :=
| ancestor_self : ancestorOrSelf a a
| ancestor_above n up : parent n = Some up → ancestorOrSelf a up → ancestorOrSelf a n.

(** ** The view cache of the application *)

(** What [await import(...)] gives: the namespace object of the module
    with its exports, or the value the import rejects with. *)
Inductive Imported :=
| Namespace (exports : list (string * JsVal))
| NotLoaded (error : JsVal).

(** [const viewCache = {}] is an object literal: a read of a key that
    it does not own finds the properties of [Object.prototype]. *)
Definition objectPrototypeKeys : list string :=
  ["constructor"; "__defineGetter__"; "__defineSetter__"; "hasOwnProperty";
   "__lookupGetter__"; "__lookupSetter__"; "isPrototypeOf";
   "propertyIsEnumerable"; "toString"; "valueOf"; "__proto__"; "toLocaleString"].

(** What [buildFromView] hands out: data, or the property of
    [Object.prototype] of that name (a function or, for [__proto__],
    the prototype itself). *)
Inductive Loaded :=
| Data (data : JsVal)
| Inherited (key : string).

Definition truthyLoaded (l : Loaded) : bool :=
  match l with
  | Data data => Js.truthy data
  | Inherited _ => true
  end.

(** The page: the module-level cache, the calls of [console.error] and
    the specifiers imported so far. *)
Record Page := mkPage {
  viewCache : gmap string JsVal;
  consoleErrors : list (list JsVal);
  imports : list string
}.

(** How the promise of [buildFromView] settles: with a value, or with
    [new Error(message)]. *)
Inductive Settled :=
| Resolves (value : Loaded)
| RejectsWithError (message : string).

(** [viewCache[viewName]], [None] for [undefined]. *)
Definition viewCache_read (cache : gmap string JsVal) (viewName : string)
  : option Loaded :=
  match cache !! viewName with
  | Some data => Some (Data data)
  | None =>
      if bool_decide (viewName ∈ objectPrototypeKeys) then Some (Inherited viewName)
      else None
  end.

Definition doubleQuote : string := String "034" EmptyString.

(** [buildFromView(viewName)], with the modules [import()] finds. *)
Definition buildFromView (modules : string → Imported) (viewName : string)
  : Page → Settled * Page := λ page,
  let load :=
    let specifier := "../generated/" ++ viewName ++ ".js" in
    let imports := (imports page ++ [specifier])%list in
    match modules specifier with
    | Namespace exports =>
        let viewData := VObj exports in
        let data := Js.or (Js.get viewData "default") viewData in
        (Resolves (Data data),
         mkPage (<[viewName := data]> (viewCache page)) (consoleErrors page) imports)
    | NotLoaded error =>
        (RejectsWithError
           (("View " ++ doubleQuote ++ viewName ++ doubleQuote ++ " not found. ")
            ++ "Make sure the view exists in src/data/ and run the build to generate data models."),
         mkPage (viewCache page)
           (consoleErrors page
            ++ [[VStr ("Failed to load view data for " ++ viewName ++ ":"); error]])%list
           imports)
    end in
  match viewCache_read (viewCache page) viewName with
  | Some cached => if truthyLoaded cached then (Resolves cached, page) else load
  | None => load
  end.

(** The page after some calls of [buildFromView], each with the modules
    of its moment. *)
Fixpoint afterCalls (calls : list ((string → Imported) * string)) (page : Page) : Page :=
  match calls with
  | [] => page
  | (modules, viewName) :: rest => afterCalls rest (buildFromView modules viewName page).2
  end.

(** The cache hands out [value] for [viewName]. *)
Definition cached (viewName : string) (value : Loaded) (page : Page) : Prop :=
  viewCache_read (viewCache page) viewName = Some value ∧ truthyLoaded value = true.

(** ** More samples *)

(** The node of [attributed]. *)
Definition attributedNode : JsVal :=
  VObj [("name", VStr "Time And Attendance");
        ("description", VStr "Employee time tracking");
        ("owner", VStr "Workforce Management Team");
        ("size", VNum (Num 1000))].

(** The settings of [attributed] without the key the generator does not
    read. *)
Definition attributedAsRead : option ImportResult :=
  Some (Exports (VObj [("description", VStr "Employee time tracking");
                       ("owner", VStr "Workforce Management Team")])).

(** Three directories of which two have the same display name and the
    third, compiled last, sorts first. *)
Definition twinsEntries : list (string * FsEntry) :=
  [("z-first", Folder (Some (Exports (VObj [("name", VStr "Alpha")])))
                      [("_settings.js", File)]);
   ("b-team", Folder (Some (Exports (VObj [("name", VStr "Payments");
                                           ("description", VStr "second")])))
                     [("_settings.js", File)]);
   ("a-team", Folder (Some (Exports (VObj [("name", VStr "Payments");
                                           ("description", VStr "first")])))
                     [("_settings.js", File)])].

Definition twins : FsEntry := Folder None twinsEntries.

Definition paymentsFirst : JsVal :=
  VObj [("name", VStr "Payments"); ("description", VStr "first");
        ("size", VNum (Num 1000))].

Definition paymentsSecond : JsVal :=
  VObj [("name", VStr "Payments"); ("description", VStr "second");
        ("size", VNum (Num 1000))].

Definition alphaLast : JsVal :=
  VObj [("name", VStr "Alpha"); ("description", VStr "Z First segment");
        ("size", VNum (Num 1000))].

Definition twinsNode : JsVal :=
  VObj [("name", VStr "Twins"); ("description", VStr "Twins segment");
        ("children", VArr [alphaLast; paymentsFirst; paymentsSecond])].

(** Views of which two are named by numbers. *)
Definition numberedViews : FsEntry :=
  Folder None [("b", Folder None []); ("10", Folder None []); ("9", Folder None [])].

(** A page that has loaded nothing, and the generated modules before
    and after a build. *)
Definition freshPage : Page := mkPage ∅ [] [].

Definition noModules : string → Imported := λ _, NotLoaded (VStr "Cannot find module").

Definition viewAModule : string → Imported := λ specifier,
  if String.eqb specifier "../generated/ViewA.js"
  then Namespace [("default", Scenario.ViewANode)]
  else NotLoaded (VStr "Cannot find module").

(** ** The floating tooltip

    Of the tooltip the model keeps what decides whether it is shown and
    what it shows: [state.content], [state.mouseInside], the [display]
    style of the tooltip element and the content of that element.  Its
    position is left out. *)

(** A value given to [content(val)]: a value of the language or an
    [HTMLElement]. *)
Inductive TooltipContent :=
| Plain (v : JsVal)
| HTMLElement.

Definition truthyContent (c : TooltipContent) : bool :=
  match c with
  | Plain v => Js.truthy v
  | HTMLElement => true
  end.

Inductive Display := inline | none.

(** What the tooltip element holds: nothing (after [text('')]), the
    markup given to [html], or the appended element. *)
Inductive Shown :=
| Nothing
| Markup (html : string)
| Element.

Record Tooltip := mkTooltip {
  tooltip_content : TooltipContent;
  mouseInside : bool;
  display : Display;
  shown : Shown;
  invalidContents : list TooltipContent
}.

(** The tooltip the constructor leaves. *)
Definition newTooltip : Tooltip :=
  mkTooltip (Plain (VBool false)) false none Nothing [].

(** The [mousemove] and the [mouseover] handler, as far as the display
    goes. *)
Definition onMouseInside (t : Tooltip) : Tooltip :=
  mkTooltip (tooltip_content t) true
    (if truthyContent (tooltip_content t) then inline else display t)
    (shown t) (invalidContents t).

(** The [mouseout] handler. *)
Definition onMouseout (t : Tooltip) : Tooltip :=
  mkTooltip (tooltip_content t) false none (shown t) (invalidContents t).

(** [_update()] *)
Definition _update (t : Tooltip) : Tooltip :=
  let content := tooltip_content t in
  let display := if truthyContent content && mouseInside t then inline else none in
  if negb (truthyContent content) then
    mkTooltip content (mouseInside t) display Nothing (invalidContents t)
  else
    match content with
    | HTMLElement => mkTooltip content (mouseInside t) display Element (invalidContents t)
    | Plain (VStr html) =>
        mkTooltip content (mouseInside t) display (Markup html) (invalidContents t)
    | _ =>
        mkTooltip content (mouseInside t) none (shown t)
          (invalidContents t ++ [content])%list
    end.

(** [content(val)] *)
Definition setContent (val : TooltipContent) (t : Tooltip) : Tooltip :=
  _update (mkTooltip val (mouseInside t) (display t) (shown t) (invalidContents t)).

(** What happens to a tooltip. *)
Inductive TooltipEvent :=
| Mousemove
| Mouseover
| Mouseout
| Content (val : TooltipContent).

Definition handle (t : Tooltip) (ev : TooltipEvent) : Tooltip :=
  match ev with
  | Mousemove | Mouseover => onMouseInside t
  | Mouseout => onMouseout t
  | Content val => setContent val t
  end.

(** The tooltip after the events, from a new one. *)
Definition tooltipAfter (events : list TooltipEvent) : Tooltip :=
  foldl handle newTooltip events.

(** Content the tooltip can show: a falsy value, a string or an
    element. *)
Definition validContent (c : TooltipContent) : bool :=
  match c with
  | HTMLElement => true
  | Plain (VStr _) => true
  | Plain v => negb (Js.truthy v)
  end.

Definition validEvent (ev : TooltipEvent) : bool :=
  match ev with
  | Content val => validContent val
  | _ => true
  end.

(** What the tooltip element holds when it shows [c]. *)
Definition rendering (c : TooltipContent) : Shown :=
  if negb (truthyContent c) then Nothing
  else match c with
       | HTMLElement => Element
       | Plain (VStr html) => Markup html
       | Plain _ => Nothing
       end.

(** * Properties *)

(** ** The sort *)

Section ArraySortFacts.
Context {A : Type} (comparefn : A → A → Z).

Lemma insertSorted_perm x l : insertSorted comparefn x l ≡ₚ x :: l.
Proof.
  induction l as [|y l IH]; simpl; [done|].
  destruct (comparefn x y <=? 0)%Z; [done|].
  rewrite IH. apply perm_swap.
Qed.

Lemma arraySort_perm l : arraySort comparefn l ≡ₚ l.
Proof.
  induction l as [|x l IH]; simpl; [done|].
  unfold arraySort in *. by rewrite insertSorted_perm, IH.
Qed.

Lemma arraySort_length l : length (arraySort comparefn l) = length l.
Proof. by rewrite arraySort_perm. Qed.

Lemma arraySort_nil_inv l : arraySort comparefn l = [] → l = [].
Proof.
  intros E. apply length_zero_iff_nil.
  by rewrite <-arraySort_length, E.
Qed.

Hypothesis total : ∀ x y, before comparefn x y ∨ before comparefn y x.

Lemma insertSorted_Sorted x l :
  Sorted (before comparefn) l → Sorted (before comparefn) (insertSorted comparefn x l).
Proof.
  induction 1 as [|y l Hl IH Hy]; simpl.
  { repeat constructor. }
  destruct (Z.leb_spec (comparefn x y) 0) as [Hxy|Hxy].
  { constructor; [by constructor|]. by constructor. }
  constructor; [done|].
  assert (before comparefn y x) as Hyx.
  { destruct (total x y) as [Hc|Hc]; [unfold before in Hc; lia|done]. }
  destruct Hy as [|z l' Hyz]; simpl.
  { by constructor. }
  destruct (comparefn x z <=? 0)%Z; by constructor.
Qed.

Lemma arraySort_Sorted l : Sorted (before comparefn) (arraySort comparefn l).
Proof.
  induction l as [|x l IH]; simpl; [constructor|].
  by apply insertSorted_Sorted.
Qed.

(** Neighbours in a sorted array are in order. *)
Lemma Sorted_neighbours (l : list A) i x y :
  Sorted (before comparefn) l → l !! i = Some x → l !! S i = Some y → before comparefn x y.
Proof.
  intros Hl. revert i. induction Hl as [|z l Hl IH Hz]; intros i Hx Hy; [done|].
  destruct i as [|i]; simpl in *.
  - simplify_eq. destruct Hz as [|z' l' Hz]; simpl in *; by simplify_eq.
  - by apply (IH i).
Qed.

End ArraySortFacts.

Lemma Sorted_weaken {A} (R1 R2 : relation A) l :
  (∀ x y, R1 x y → R2 x y) → Sorted R1 l → Sorted R2 l.
Proof.
  intros HR. induction 1 as [|x l Hl IH Hx]; constructor; [done|].
  destruct Hx; constructor; auto.
Qed.

(** Sorting two arrays that are alike element by element, with
    comparators that agree on alike elements, gives alike arrays. *)
Lemma arraySort_Forall2 {A B} (R : A → B → Prop) (f : A → A → Z) (g : B → B → Z) l k :
  (∀ a a' b b', R a b → R a' b' → f a a' = g b b') →
  Forall2 R l k → Forall2 R (arraySort f l) (arraySort g k).
Proof.
  intros Hfg. induction 1 as [|a b l k Hab Hlk IH]; simpl; [constructor|].
  fold (arraySort f l) (arraySort g k).
  induction IH as [|a' b' l' k' Hab' Hlk' IH']; simpl.
  { by repeat constructor. }
  rewrite (Hfg a a' b b') by done.
  destruct (g b b' <=? 0)%Z; repeat constructor; done.
Qed.

(** The default order is the order of code units. *)
Lemma defaultCompare_le x y : (defaultCompare x y ≤ 0)%Z ↔ String.le x y.
Proof.
  unfold defaultCompare, String.le, String.leb.
  destruct (String.compare x y); simpl; split; intros ?; (done || lia).
Qed.

(** ** The monad *)

Lemma bind_Returned {A B} (m : M A) (f : A → M B) w b w' :
  (m ≫= f) w = (Returned b, w') →
  ∃ a w1, m w = (Returned a, w1) ∧ f a w1 = (Returned b, w').
Proof.
  unfold mbind, M_bind. destruct (m w) as [[a| |] w1]; [eauto|done..].
Qed.

Lemma bind_eq {A B} (m : M A) (f : A → M B) w a w1 :
  m w = (Returned a, w1) → (m ≫= f) w = f a w1.
Proof. unfold mbind, M_bind. by intros ->. Qed.

Lemma forOf_Returned {A B} (xs : list A) (body : A → M B) w ys w' :
  forOf xs body w = (Returned ys, w') →
  Forall2 (λ x y, ∃ w1 w2, body x w1 = (Returned y, w2)) xs ys.
Proof.
  revert w ys. induction xs as [|x xs IH]; intros w ys; simpl.
  { intros [= <- <-]. constructor. }
  intros (y & w1 & Hy & Hrest)%bind_Returned.
  apply bind_Returned in Hrest as (ys' & w2 & Hys & [= <- <-]).
  constructor; eauto.
Qed.

(** The loop runs alike on alike arrays. *)
Lemma forOf_ext {A A' B} (R : A → A' → Prop) (xs : list A) (xs' : list A')
    (body : A → M B) (body' : A' → M B) :
  Forall2 R xs xs' →
  (∀ x x' w, R x x' → body x w = body' x' w) →
  ∀ w, forOf xs body w = forOf xs' body' w.
Proof.
  intros Hxs Hbody. induction Hxs as [|x x' xs xs' Hx Hxs IH]; intros w; [done|].
  simpl. unfold mbind, M_bind. rewrite (Hbody x x' w Hx).
  destruct (body' x' w) as [[y| |] w1]; [|done..].
  by rewrite IH.
Qed.

(** ** Induction over a directory tree *)

Lemma FsEntry_tree_ind (P : FsEntry → Prop) :
  P File →
  (∀ settingsFile entries,
      Forall (λ d, P d.2) entries → P (Folder settingsFile entries)) →
  ∀ e, P e.
Proof.
  intros HFile HFolder. fix IH 1. intros [|settingsFile entries]; [exact HFile|].
  apply HFolder. induction entries as [|[n e] entries IHentries]; constructor.
  - exact (IH e).
  - exact IHentries.
Qed.

(** ** Compiled nodes *)

Ltac node_cases settings :=
  unfold startNode;
  destruct (Js.truthy (Js.get settings "nodeColor")),
           (Js.truthy (Js.get settings "owner")),
           (Js.truthy (Js.get settings "contact")); simpl.

Section Compiled.
Context `{Host}.

Lemma loadSettings_Returned path settingsFile w settings w' :
  loadSettings path settingsFile w = (Returned settings, w') →
  settings = metadataOf settingsFile.
Proof.
  destruct settingsFile as [[default|error]|]; simpl.
  - by intros [= <- _].
  - intros (m & w1 & _ & Hrest)%bind_Returned.
    apply bind_Returned in Hrest as (_ & _ & _ & [= <- _]). done.
  - by intros [= <- _].
Qed.

Lemma sortChildren_Returned kids w sorted w' :
  sortChildren kids w = (Returned sorted, w') →
  sorted ≡ₚ kids ∧ w' = w ∧
  (sorted = arraySort byName kids ∧ forallb nameIsString kids = true
   ∨ sorted = kids ∧ (length kids ≤ 1)%nat).
Proof.
  unfold sortChildren.
  destruct (forallb nameIsString kids) eqn:Hstr.
  { intros [= <- <-]. split; [apply arraySort_perm|]. auto. }
  destruct (Nat.leb_spec (length kids) 1).
  { intros [= <- <-]. auto. }
  unfold throw, engineDefined. by case_match.
Qed.

Lemma filter_direntsOf build entries :
  List.filter qualifies (direntsOf build entries)
  = direntsOf build (List.filter qualifyingEntry entries).
Proof.
  induction entries as [|d entries IH]; [done|]. simpl.
  unfold qualifies at 1, qualifyingEntry at 1. simpl.
  destruct (_ && _ && _); simpl; by rewrite IH.
Qed.

Lemma subdirsOf_nil build entries :
  subdirsOf (direntsOf build entries) = [] ↔ isLeafDirectory entries.
Proof.
  unfold subdirsOf, isLeafDirectory. rewrite filter_direntsOf. split.
  - intros E%arraySort_nil_inv. by destruct (List.filter _ entries).
  - by intros ->.
Qed.

Lemma subdirsOf_elem build entries subdir :
  subdir ∈ subdirsOf (direntsOf build entries) →
  ∃ d, d ∈ entries ∧ dirent_build subdir = build d.2 ∧ dirent_name subdir = d.1.
Proof.
  unfold subdirsOf. rewrite arraySort_perm, filter_direntsOf.
  unfold direntsOf. intros (d & -> & Hd)%list_elem_of_fmap.
  exists d. split_and!; [|done..].
  apply list_elem_of_In, filter_In in Hd as [Hd _]. by apply list_elem_of_In.
Qed.

(** What a successful [buildFromDirectory] on a directory returned. *)
Lemma buildFromDirectory_Returned settingsFile entries dirPath nodeName w node w' :
  buildFromDirectory (Folder settingsFile entries) dirPath nodeName w
    = (Returned node, w') →
  (isLeafDirectory entries ∧ node = leafNode (metadataOf settingsFile) nodeName)
  ∨ (¬ isLeafDirectory entries ∧
     ∃ kids sorted w1 w2 w3,
       forOf (subdirsOf (direntsOf buildFromDirectory entries))
             (λ subdir,
                dirent_build subdir (path_join dirPath (dirent_name subdir))
                             (dirent_name subdir)) w1 = (Returned kids, w2)
       ∧ sortChildren kids w2 = (Returned sorted, w3)
       ∧ node = branchNode (metadataOf settingsFile) nodeName sorted).
Proof.
  simpl. unfold buildNode. fold (direntsOf buildFromDirectory entries).
  intros (settings & w1 & Hs & Hrest)%bind_Returned.
  apply loadSettings_Returned in Hs as ->.
  destruct (Nat.eqb_spec (length (subdirsOf (direntsOf buildFromDirectory entries))) 0)
    as [Hlen|Hlen].
  - left. apply length_zero_iff_nil, subdirsOf_nil in Hlen.
    by injection Hrest as <- _.
  - right. split.
    { intros Hleaf%(subdirsOf_nil buildFromDirectory). by rewrite Hleaf in Hlen. }
    apply bind_Returned in Hrest as (kids & w2 & Hkids & Hrest).
    apply bind_Returned in Hrest as (sorted & w3 & Hsorted & [= <- _]).
    by exists kids, sorted, w1, w2, w3.
Qed.

Lemma buildFromDirectory_Built dir :
  ∀ dirPath nodeName w node w',
    buildFromDirectory dir dirPath nodeName w = (Returned node, w') → Built node.
Proof.
  induction dir as [|settingsFile entries IH] using FsEntry_tree_ind;
    intros dirPath nodeName w node w' Hrun; [done|].
  apply buildFromDirectory_Returned in Hrun
    as [[_ ->]|(Hbranch & kids & sorted & w1 & w2 & w3 & Hkids & Hsorted & ->)].
  { constructor. }
  apply forOf_Returned in Hkids.
  eapply Built_branch; [| |exact Hsorted].
  - intros ->. apply Forall2_nil_inv_r in Hkids.
    by apply subdirsOf_nil in Hkids.
  - intros k Hk.
    apply list_elem_of_lookup in Hk as [i Hi].
    destruct (Forall2_lookup_r _ _ _ _ _ Hkids Hi)
      as (subdir & Hsubdir & w4 & w5 & Hbuild).
    apply list_elem_of_lookup_2, subdirsOf_elem in Hsubdir as (d & Hd & Hb & _).
    rewrite Hb in Hbuild.
    rewrite Forall_forall in IH. by eapply IH.
Qed.

End Compiled.

(** ** Objects *)

Lemma lookup_assign k v props k' :
  Js.lookup k' (Js.assign k v props)
  = if String.eqb k' k then Some v else Js.lookup k' props.
Proof.
  induction props as [|[k0 v0] props IH]; simpl.
  { by destruct (String.eqb k' k). }
  destruct (String.eqb_spec k k0) as [->|Hne]; simpl.
  - by destruct (String.eqb k' k0).
  - rewrite IH. destruct (String.eqb_spec k' k0) as [->|]; [|done].
    destruct (String.eqb_spec k0 k) as [->|]; done.
Qed.

Lemma get_set_ne props k v k' :
  k' ≠ k → Js.get (Js.set (VObj props) k v) k' = Js.get (VObj props) k'.
Proof.
  intros Hne. simpl. rewrite lookup_assign.
  by destruct (String.eqb_spec k' k).
Qed.

Lemma has_set_ne props k v k' :
  k' ≠ k → Js.has (Js.set (VObj props) k v) k' = Js.has (VObj props) k'.
Proof.
  intros Hne. simpl. rewrite lookup_assign.
  by destruct (String.eqb_spec k' k).
Qed.

Lemma startNode_object settings nodeName : ∃ props, startNode settings nodeName = VObj props.
Proof. node_cases settings; eauto. Qed.

Section NodeFacts.
Context `{Host}.
Implicit Types (settings : JsVal) (nodeName : string).

Lemma leafNode_size settings nodeName :
  Js.has (leafNode settings nodeName) "size" = true
  ∧ Js.get (leafNode settings nodeName) "size"
    = Js.or (Js.get settings "size") DEFAULTS_LEAF_SIZE.
Proof. unfold leafNode. node_cases settings; done. Qed.

Lemma leafNode_children settings nodeName :
  Js.has (leafNode settings nodeName) "children" = false
  ∧ Js.get (leafNode settings nodeName) "children" = VUndefined.
Proof. unfold leafNode. node_cases settings; done. Qed.

Lemma branchNode_size settings nodeName children :
  Js.has (branchNode settings nodeName children) "size" = false.
Proof. unfold branchNode. node_cases settings; done. Qed.

Lemma branchNode_children settings nodeName children :
  Js.has (branchNode settings nodeName children) "children" = true
  ∧ Js.get (branchNode settings nodeName children) "children" = VArr children.
Proof. unfold branchNode. node_cases settings; done. Qed.

(** The fields set before the size or the children are those of
    [startNode]. *)
Lemma buildFromDirectory_fields settingsFile entries dirPath nodeName w node w' k :
  buildFromDirectory (Folder settingsFile entries) dirPath nodeName w
    = (Returned node, w') →
  k ≠ "size" → k ≠ "children" →
  Js.get node k = Js.get (startNode (metadataOf settingsFile) nodeName) k
  ∧ Js.has node k = Js.has (startNode (metadataOf settingsFile) nodeName) k.
Proof.
  intros Hrun Hsize Hchildren.
  destruct (startNode_object (metadataOf settingsFile) nodeName) as [props Hprops].
  apply buildFromDirectory_Returned in Hrun
    as [[_ ->]|(_ & kids & sorted & w1 & w2 & w3 & _ & _ & ->)];
    unfold leafNode, branchNode; rewrite Hprops;
    by rewrite get_set_ne, has_set_ne.
Qed.

Lemma startNode_name settings nodeName :
  Js.get (startNode settings nodeName) "name"
  = Js.or (Js.get settings "name") (VStr (formatNodeName nodeName)).
Proof. node_cases settings; done. Qed.

Lemma startNode_description settings nodeName :
  Js.get (startNode settings nodeName) "description"
  = Js.or (Js.get settings "description") (VStr (formatNodeName nodeName ++ " segment")).
Proof. node_cases settings; done. Qed.

Lemma startNode_owner settings nodeName :
  Js.has (startNode settings nodeName) "owner" = Js.truthy (Js.get settings "owner")
  ∧ (Js.truthy (Js.get settings "owner") = true →
     Js.get (startNode settings nodeName) "owner" = Js.get settings "owner").
Proof.
  unfold startNode.
  destruct (Js.truthy (Js.get settings "nodeColor")),
           (Js.truthy (Js.get settings "owner")),
           (Js.truthy (Js.get settings "contact")); done.
Qed.

Lemma startNode_contact settings nodeName :
  Js.has (startNode settings nodeName) "contact" = Js.truthy (Js.get settings "contact")
  ∧ Js.has (startNode settings nodeName) "contactEmail" = false.
Proof. node_cases settings; done. Qed.

Lemma Built_inTree tree node : Built tree → inTree node tree → Built node.
Proof.
  intros Htree Hin. induction Hin as [|t kids c Hkids Hc Hin IH]; [done|].
  apply IH. destruct Htree as [settings nodeName|settings nodeName kids0 sorted w w' _ Hall Hsort].
  - by rewrite (proj2 (leafNode_children _ _)) in Hkids.
  - rewrite (proj2 (branchNode_children _ _ _)) in Hkids. injection Hkids as <-.
    apply Hall. apply sortChildren_Returned in Hsort as (Hperm & _). by rewrite <-Hperm.
Qed.

End NodeFacts.

(** ** Leaves and branches *)

(** C1.  In every tree [buildFromDirectory] returns, every node has
    exactly one of [size] and [children], and [children], where
    present, is a non-empty array. *)
Theorem leaf_branch_exclusive `{Host} dir dirPath nodeName w tree w' :
  buildFromDirectory dir dirPath nodeName w = (Returned tree, w') →
  ∀ node, inTree node tree →
    xorb (Js.has node "size") (Js.has node "children") = true
    ∧ (Js.has node "children" = true →
       ∃ kids, Js.get node "children" = VArr kids ∧ kids ≠ []).
Proof.
  intros Hrun%buildFromDirectory_Built node Hnode.
  destruct (Built_inTree _ _ Hrun Hnode)
    as [settings name|settings name kids sorted w0 w0' Hne _ Hsort].
  - destruct (leafNode_size settings name) as [-> _].
    destruct (leafNode_children settings name) as [-> _]. done.
  - rewrite branchNode_size.
    destruct (branchNode_children settings name sorted) as [-> ->].
    split; [done|]. intros _. exists sorted. split; [done|].
    apply sortChildren_Returned in Hsort as (Hperm & _).
    intros ->. by apply Permutation_nil in Hperm.
Qed.

(** C10.  A leaf directory whose metadata gives a falsy [size] compiles
    to size 1000, and no node of a compiled tree has size 0. *)
Theorem falsy_size_defaults `{Host} dir dirPath nodeName w tree w' :
  buildFromDirectory dir dirPath nodeName w = (Returned tree, w') →
  (∀ settingsFile entries,
      dir = Folder settingsFile entries →
      isLeafDirectory entries →
      Js.truthy (Js.get (metadataOf settingsFile) "size") = false →
      Js.get tree "size" = VNum (Num 1000))
  ∧ (∀ node, inTree node tree →
       Js.has node "size" = true → Js.get node "size" ≠ VNum (Num 0)).
Proof.
  intros Hrun. split.
  - intros settingsFile entries -> Hleaf Hfalsy.
    apply buildFromDirectory_Returned in Hrun as [[_ ->]|[Hbranch _]]; [|done].
    rewrite (proj2 (leafNode_size _ _)). unfold Js.or. by rewrite Hfalsy.
  - intros node Hnode Hsize. apply buildFromDirectory_Built in Hrun.
    destruct (Built_inTree _ _ Hrun Hnode) as [settings name|settings name kids sorted ? ? _ _ _].
    + rewrite (proj2 (leafNode_size _ _)). unfold Js.or.
      destruct (Js.truthy (Js.get settings "size")) eqn:Htruthy; [|done].
      intros E. by rewrite E in Htruthy.
    + by rewrite branchNode_size in Hsize.
Qed.

(** ** Names and descriptions *)

Lemma capitalizeWords_at prevWord s i :
  Str.at_ (capitalizeWords prevWord (replaceHyphens s)) i
  = c ← Str.at_ s i;
    Some (if Ascii.eqb c "-" then " "%char
          else if Str.isWordChar c
                  && match i with 0 => negb prevWord | S _ => startsWord s i end
               then Str.toUpperCase c
          else c).
Proof.
  unfold Str.at_. revert prevWord i. induction s as [|a s IH]; intros prevWord i.
  { by destruct i. }
  destruct i as [|i]; simpl.
  - by destruct (Ascii.eqb_spec a "-") as [->|].
  - rewrite IH. destruct (String.get i s) as [c|] eqn:Hc; [|done]. simpl.
    do 3 f_equal. destruct i as [|i]; [|done]. simpl.
    by destruct (Ascii.eqb_spec a "-") as [->|].
Qed.

Lemma formatNodeName_at s i : Str.at_ (formatNodeName s) i = titleCasedAt s i.
Proof.
  unfold formatNodeName, titleCasedAt. rewrite capitalizeWords_at.
  destruct (Str.at_ s i) as [c|]; [|done]. simpl. by destruct i.
Qed.

(** C7, as the code has it.  Without a [name] in the metadata, the node
    is named by the directory with each hyphen turned into a space and
    the first character of each word uppercased, a word being a run of
    letters, digits and underscores, wherever it starts;
    [time-and-attendance] gives [Time And Attendance]. *)
Theorem default_name_formatted `{Host} settingsFile entries dirPath nodeName w node w' :
  buildFromDirectory (Folder settingsFile entries) dirPath nodeName w
    = (Returned node, w') →
  Js.get (metadataOf settingsFile) "name" = VUndefined →
  (∃ name, Js.get node "name" = VStr name
           ∧ ∀ i, Str.at_ name i = titleCasedAt nodeName i)
  ∧ formatNodeName "time-and-attendance" = "Time And Attendance".
Proof.
  intros Hrun Hname. split; [|done].
  exists (formatNodeName nodeName). split; [|apply formatNodeName_at].
  destruct (buildFromDirectory_fields _ _ _ _ _ _ _ "name" Hrun) as [-> _]; [done..|].
  rewrite startNode_name. unfold Js.or. by rewrite Hname.
Qed.

(** C2, as the code has it.  The description is the one of the metadata
    if that is truthy, a non-empty string for one, and else the formatted
    directory name followed by [" segment"], whatever [name] the metadata
    gives. *)
Theorem description_default `{Host} settingsFile entries dirPath nodeName w node w' :
  buildFromDirectory (Folder settingsFile entries) dirPath nodeName w
    = (Returned node, w') →
  Js.get node "description"
  = if Js.truthy (Js.get (metadataOf settingsFile) "description")
    then Js.get (metadataOf settingsFile) "description"
    else VStr (formatNodeName nodeName ++ " segment").
Proof.
  intros Hrun.
  destruct (buildFromDirectory_fields _ _ _ _ _ _ _ "description" Hrun) as [-> _]; [done..|].
  by rewrite startNode_description.
Qed.

(** ** Attribution *)

(** [owner] is copied if truthy, [contact] likewise, and there is never
    a [contactEmail]. *)
Lemma attribution_fields `{Host} settingsFile entries dirPath nodeName w node w' :
  buildFromDirectory (Folder settingsFile entries) dirPath nodeName w
    = (Returned node, w') →
  Js.has node "owner" = Js.truthy (Js.get (metadataOf settingsFile) "owner")
  ∧ Js.has node "contact" = Js.truthy (Js.get (metadataOf settingsFile) "contact")
  ∧ Js.has node "contactEmail" = false.
Proof.
  intros Hrun.
  destruct (buildFromDirectory_fields _ _ _ _ _ _ _ "owner" Hrun) as [_ ->]; [done..|].
  destruct (buildFromDirectory_fields _ _ _ _ _ _ _ "contact" Hrun) as [_ ->]; [done..|].
  destruct (buildFromDirectory_fields _ _ _ _ _ _ _ "contactEmail" Hrun) as [_ ->]; [done..|].
  rewrite (proj1 (startNode_owner _ _)).
  by destruct (startNode_contact (metadataOf settingsFile) nodeName) as [-> ->].
Qed.

(** ** The order of the children *)

Lemma byName_total `{Host} a b : before byName a b ∨ before byName b a.
Proof.
  unfold before, byName.
  destruct (Js.get a "name"), (Js.get b "name"); try (left; lia).
  apply localeCompare_total.
Qed.

(** A directory whose settings let it compile does compile. *)

Section Returns.
Context `{Host}.

Lemma loadSettings_returns settingsPath settingsFile w :
  settingsCompile settingsFile = true →
  ∃ w', loadSettings settingsPath settingsFile w = (Returned (metadataOf settingsFile), w').
Proof.
  intros [Hload _]%andb_true_iff.
  destruct settingsFile as [[default|error]|]; simpl; eauto.
  destruct error; try done; simpl; eauto.
Qed.

Lemma forOf_returns {A B} (P : B → Prop) (xs : list A) (body : A → M B) :
  Forall (λ x, ∀ w, ∃ y w', body x w = (Returned y, w') ∧ P y) xs →
  ∀ w, ∃ ys w', forOf xs body w = (Returned ys, w') ∧ Forall P ys.
Proof.
  induction 1 as [|x xs Hx _ IH]; intros w; simpl.
  { by exists [], w. }
  destruct (Hx w) as (y & w1 & Hy & HP).
  destruct (IH w1) as (ys & w2 & Hys & HPs).
  exists (y :: ys), w2. split; [|by constructor].
  rewrite (bind_eq _ _ _ _ _ Hy). by rewrite (bind_eq _ _ _ _ _ Hys).
Qed.

Lemma startNode_nameIsString settingsFile nodeName :
  settingsCompile settingsFile = true →
  nameIsString (startNode (metadataOf settingsFile) nodeName) = true.
Proof.
  intros [_ Hname]%andb_true_iff. unfold nameIsString.
  rewrite startNode_name. unfold Js.or.
  destruct (Js.truthy (Js.get (metadataOf settingsFile) "name")); [|done].
  by simpl in Hname.
Qed.

Lemma set_nameIsString node k v :
  k ≠ "name" → nameIsString node = true → nameIsString (Js.set node k v) = true.
Proof.
  intros Hk. unfold nameIsString. destruct node; try done.
  by rewrite get_set_ne.
Qed.

(** A directory whose settings let it compile compiles: the call
    returns a node named by a string. *)
Lemma buildFromDirectory_returns dir :
  compilable dir = true → isFolder dir = true →
  ∀ dirPath nodeName w,
    ∃ node w', buildFromDirectory dir dirPath nodeName w = (Returned node, w')
               ∧ nameIsString node = true.
Proof.
  induction dir as [|settingsFile entries IH] using FsEntry_tree_ind;
    intros Hdir Hfolder dirPath nodeName w; [done|].
  simpl in Hdir. apply andb_true_iff in Hdir as [Hsettings Hentries].
  destruct (loadSettings_returns (path_join dirPath "_settings.js") _ w Hsettings)
    as (w1 & Hload).
  pose proof (startNode_nameIsString _ nodeName Hsettings) as Hname.
  simpl. unfold buildNode. rewrite (bind_eq _ _ _ _ _ Hload).
  fold (direntsOf buildFromDirectory entries).
  destruct (length (subdirsOf (direntsOf buildFromDirectory entries)) =? 0)%nat.
  { eexists _, _. split; [done|]. by apply set_nameIsString. }
  destruct (forOf_returns (λ k, nameIsString k = true)
              (subdirsOf (direntsOf buildFromDirectory entries))
              (λ subdir, dirent_build subdir (path_join dirPath (dirent_name subdir))
                           (dirent_name subdir))) with (w := w1)
    as (kids & w2 & Hkids & Hstrings).
  { apply Forall_forall. intros subdir Hsubdir w0.
    assert (subdir ∈ List.filter qualifies (direntsOf buildFromDirectory entries)) as Hq.
    { unfold subdirsOf in Hsubdir. by rewrite arraySort_perm in Hsubdir. }
    rewrite filter_direntsOf in Hq. unfold direntsOf in Hq.
    apply list_elem_of_fmap in Hq as (d & -> & Hd).
    apply list_elem_of_In, filter_In in Hd as [Hd Hqual]. apply list_elem_of_In in Hd.
    simpl. rewrite Forall_forall in IH.
    apply (IH d Hd).
    - rewrite forallb_forall in Hentries. by apply Hentries, list_elem_of_In.
    - unfold qualifyingEntry in Hqual. by destruct (isFolder d.2). }
  rewrite (bind_eq _ _ _ _ _ Hkids).
  assert (sortChildren kids w2 = (Returned (arraySort byName kids), w2)) as Hsort.
  { unfold sortChildren. replace (forallb nameIsString kids) with true; [done|].
    symmetry. apply forallb_forall. intros k Hk%list_elem_of_In.
    rewrite Forall_forall in Hstrings. by apply Hstrings. }
  rewrite (bind_eq _ _ _ _ _ Hsort).
  eexists _, _. split; [done|]. by apply set_nameIsString.
Qed.

End Returns.

(** C3, as the code has it.  A directory tree whose settings let it
    compile compiles, and in every branch of a compiled tree the
    children are in the order of [localeCompare] on their names: each
    child's name is at or before the name of the next in the collation
    of the host, which is not the order of [<=]. *)
Theorem children_sorted_by_name `{Host} dir dirPath nodeName w :
  (compilable dir = true → isFolder dir = true →
   ∃ tree w', buildFromDirectory dir dirPath nodeName w = (Returned tree, w'))
  ∧ ∀ tree w',
      buildFromDirectory dir dirPath nodeName w = (Returned tree, w') →
      ∀ node kids, inTree node tree → Js.get node "children" = VArr kids →
      ∀ i a b, kids !! i = Some a → kids !! S i = Some b →
      ∃ x y, Js.get a "name" = VStr x ∧ Js.get b "name" = VStr y
             ∧ (localeCompare x y ≤ 0)%Z.
Proof.
  split.
  { intros Hdir Hfolder.
    destruct (buildFromDirectory_returns dir Hdir Hfolder dirPath nodeName w)
      as (tree & w' & Hrun & _).
    by exists tree, w'. }
  intros tree w'.
  intros Hrun%buildFromDirectory_Built node kids Hnode Hkids i a b Ha Hb.
  destruct (Built_inTree _ _ Hrun Hnode)
    as [settings name|settings name kids0 sorted w0 w0' _ _ Hsort].
  { by rewrite (proj2 (leafNode_children _ _)) in Hkids. }
  rewrite (proj2 (branchNode_children _ _ _)) in Hkids. injection Hkids as ->.
  apply sortChildren_Returned in Hsort as (Hperm & _ & [[-> Hstr]|[-> Hlen]]).
  - assert (before byName a b) as Hab.
    { eapply Sorted_neighbours; [|exact Ha|exact Hb].
      apply arraySort_Sorted, byName_total. }
    rewrite forallb_forall in Hstr.
    assert (nameIsString a = true) as Hsa.
    { apply Hstr, list_elem_of_In. rewrite <-Hperm. by eapply list_elem_of_lookup_2. }
    assert (nameIsString b = true) as Hsb.
    { apply Hstr, list_elem_of_In. rewrite <-Hperm. by eapply list_elem_of_lookup_2. }
    unfold before, byName in Hab. unfold nameIsString in Hsa, Hsb.
    destruct (Js.get a "name") as [| | | |x| |]; try done.
    destruct (Js.get b "name") as [| | | |y| |]; try done.
    by exists x, y.
  - apply lookup_lt_Some in Hb. lia.
Qed.

(** ** The two-level scenario *)

(** C4, as the code has it.  [ViewA] with the leaf directories [Alpha]
    and [Beta], listed in either order, compiles to the node named
    [ViewA], described as [ViewA segment], with the children [Alpha]
    and [Beta] in this order, in a collation that has [Alpha] at or
    before [Beta]. *)
Theorem two_level_tree `{Host} entries dirPath w :
  entries ≡ₚ [Scenario.Alpha; Scenario.Beta] →
  (localeCompare "Alpha" "Beta" ≤ 0)%Z →
  buildFromDirectory (Folder None entries) dirPath "ViewA" w
  = (Returned Scenario.ViewANode, w).
Proof.
  intros Hperm Horder. apply Z.leb_le in Horder.
  symmetry in Hperm. apply Permutation_length_2_inv in Hperm as [->| ->].
  - cbv -[localeCompare path_join Z.leb]. unfold byName. simpl. by rewrite Horder.
  - cbv -[localeCompare path_join Z.leb]. unfold byName. simpl. by rewrite Horder.
Qed.

(** ** Settings that fail to load *)

(** An import that rejects with a value that has members, as every
    error object has, costs a warning and nothing else: the directory
    compiles as it does without a [_settings.js]. *)
Lemma import_failure_absorbed `{Host} error entries dirPath nodeName w :
  nullish error = false →
  buildFromDirectory (Folder (Some (Rejects error)) entries) dirPath nodeName w
  = buildFromDirectory (Folder None entries) dirPath nodeName
      (warned (path_join dirPath "_settings.js") (Js.get error "message") w).
Proof.
  intros Herror. simpl. unfold buildNode.
  assert (loadSettings (path_join dirPath "_settings.js") (Some (Rejects error)) w
          = (Returned (VObj []),
             warned (path_join dirPath "_settings.js") (Js.get error "message") w)) as Hload.
  { by destruct error. }
  by rewrite (bind_eq _ _ _ _ _ Hload).
Qed.

(** An import that rejects with [null] or [undefined] makes the
    [catch] itself throw: reading [error.message] is a TypeError, with
    nothing printed. *)
Lemma import_failure_nullish `{Host} error entries dirPath nodeName w :
  nullish error = true →
  buildFromDirectory (Folder (Some (Rejects error)) entries) dirPath nodeName w
  = (Threw (TypeError "Cannot read properties of null or undefined (reading 'message')"), w).
Proof. intros Herror. by destruct error. Qed.

(** ** The views *)

Lemma defaultCompare_total x y : before defaultCompare x y ∨ before defaultCompare y x.
Proof.
  unfold before. rewrite !defaultCompare_le. apply (total String.le).
Qed.

(** C9.  On a path that does not exist [getViewDirectories] returns the
    empty array, having printed one warning; on a directory it returns
    the names of the entries that are directories and do not start with
    a dot, each once, in ascending order of code units. *)
Theorem getViewDirectories_spec `{Host} dataDirPath w :
  getViewDirectories None dataDirPath w
  = (Returned [],
     mkWorld (console w ++ [ConsoleWarn [VStr ("Data directory not found: " ++ dataDirPath)]])
             (outputDirExists w) (outputFiles w))
  ∧ ∀ settingsFile entries, ∃ views,
      getViewDirectories (Some (Folder settingsFile entries)) dataDirPath w
      = (Returned views, w)
      ∧ views ≡ₚ map fst (List.filter isView entries)
      ∧ Sorted String.le views.
Proof.
  split; [done|]. intros settingsFile entries. eexists. split; [done|]. split.
  - apply arraySort_perm.
  - eapply Sorted_weaken; [|apply arraySort_Sorted, defaultCompare_total].
    intros x y. unfold before. by rewrite defaultCompare_le.
Qed.

(** ** Determinism *)

Lemma sameContent_isFolder a b : sameContent a b → isFolder a = isFolder b.
Proof. by destruct 1. Qed.

Lemma filter_Permutation_bool {A} (f : A → bool) l k :
  l ≡ₚ k → List.filter f l ≡ₚ List.filter f k.
Proof.
  induction 1 as [|x l k _ IH|x y l|l k m _ IH1 _ IH2]; simpl.
  - done.
  - destruct (f x); by rewrite IH.
  - destruct (f x), (f y); try done. apply perm_swap.
  - by trans (List.filter f k).
Qed.

Lemma filter_Forall2_bool {A B} (R : A → B → Prop) (f : A → bool) (g : B → bool) l k :
  (∀ a b, R a b → f a = g b) →
  Forall2 R l k → Forall2 R (List.filter f l) (List.filter g k).
Proof.
  intros Hfg. induction 1 as [|a b l k Hab _ IH]; simpl; [constructor|].
  rewrite (Hfg a b Hab). destruct (g b); [by constructor|done].
Qed.

Lemma Forall2_Forall_l {A B} (P : A → Prop) (R Q : A → B → Prop) l k :
  (∀ a b, P a → R a b → Q a b) → Forall P l → Forall2 R l k → Forall2 Q l k.
Proof.
  intros HQ HP HR. induction HR as [|a b l k Hab _ IH]; [constructor|].
  inv HP. constructor; auto.
Qed.

(** A consistent comparator that tells the elements apart leaves one
    sorted arrangement. *)
Lemma arraySort_unique {A} (comparefn : A → A → Z) l1 l2 :
  (∀ x y, before comparefn x y ∨ before comparefn y x) →
  Transitive (before comparefn) →
  (∀ x y, x ∈ l1 → y ∈ l1 → before comparefn x y → before comparefn y x → x = y) →
  l1 ≡ₚ l2 → arraySort comparefn l1 = arraySort comparefn l2.
Proof.
  intros Htotal Htrans Hanti Hperm.
  apply (StronglySorted_unique_strong (before comparefn)).
  - intros x y Hx Hy. apply Hanti.
    + by rewrite arraySort_perm in Hx.
    + by rewrite arraySort_perm, <-Hperm in Hy.
  - by apply Sorted_StronglySorted, arraySort_Sorted.
  - by apply Sorted_StronglySorted, arraySort_Sorted.
  - by rewrite !arraySort_perm.
Qed.

Lemma defaultCompare_trans : Transitive (before defaultCompare).
Proof.
  intros x y z. unfold before. rewrite !defaultCompare_le. intros ??. by trans y.
Qed.

Lemma defaultCompare_antisym x y :
  before defaultCompare x y → before defaultCompare y x → x = y.
Proof. unfold before. rewrite !defaultCompare_le. apply (anti_symm String.le). Qed.

Lemma NoDup_fst_inj {A B} (l : list (A * B)) a b :
  NoDup (map fst l) → a ∈ l → b ∈ l → a.1 = b.1 → a = b.
Proof.
  induction l as [|c l IH]; intros Hnd Ha Hb Hab; [by inv Ha|].
  simpl in Hnd. apply NoDup_cons in Hnd as [Hc Hnd].
  inv Ha; inv Hb; [done| | |by apply IH].
  - destruct Hc. rewrite Hab. by apply list_elem_of_fmap_2.
  - destruct Hc. rewrite <-Hab. by apply list_elem_of_fmap_2.
Qed.

Section Determinism.
Context `{Host}.

Lemma subdirsOf_alike ds1 ds2 :
  Forall2 alike ds1 ds2 → Forall2 alike (subdirsOf ds1) (subdirsOf ds2).
Proof.
  intros Hds. unfold subdirsOf. apply arraySort_Forall2.
  - intros a a' b b' (-> & _) (-> & _). done.
  - apply filter_Forall2_bool; [|done].
    intros a b (Hn & Hd & _). unfold qualifies. by rewrite Hn, Hd.
Qed.

Lemma buildNode_alike settingsFile ds1 ds2 dirPath nodeName w :
  Forall2 alike (subdirsOf ds1) (subdirsOf ds2) →
  buildNode settingsFile ds1 dirPath nodeName w
  = buildNode settingsFile ds2 dirPath nodeName w.
Proof.
  intros Hsub. unfold buildNode, mbind, M_bind.
  destruct (loadSettings _ settingsFile w) as [[settings| |] w1]; [|done..].
  rewrite <-(Forall2_length _ _ _ Hsub).
  destruct (length (subdirsOf ds1) =? 0)%nat; [done|].
  erewrite (forOf_ext alike); [done|exact Hsub|].
  intros x y w2 (-> & _ & Hbuild). apply Hbuild.
Qed.

Lemma subdirsOf_Permutation build l1 l :
  NoDup (map fst l1) → l1 ≡ₚ l →
  subdirsOf (direntsOf build l1) = subdirsOf (direntsOf build l).
Proof.
  intros Hnd Hperm. unfold subdirsOf. rewrite !filter_direntsOf.
  apply arraySort_unique.
  - intros x y. apply defaultCompare_total.
  - intros x y z. apply defaultCompare_trans.
  - unfold direntsOf.
    intros x y (a & -> & Ha)%list_elem_of_fmap (b & -> & Hb)%list_elem_of_fmap Hxy Hyx.
    simpl in *. assert (a = b) as ->; [|done].
    apply (NoDup_fst_inj l1); [done|..].
    + apply list_elem_of_In. apply list_elem_of_In, filter_In in Ha. tauto.
    + apply list_elem_of_In. apply list_elem_of_In, filter_In in Hb. tauto.
    + by apply defaultCompare_antisym.
  - unfold direntsOf. apply fmap_Permutation, filter_Permutation_bool, Hperm.
Qed.

(** The tree compiles alike however its directories are listed. *)
Lemma buildFromDirectory_sameContent e1 :
  ∀ e2, sameContent e1 e2 → uniqueNames e1 = true →
  ∀ dirPath nodeName w,
    buildFromDirectory e1 dirPath nodeName w = buildFromDirectory e2 dirPath nodeName w.
Proof.
  induction e1 as [|settingsFile l1 IH] using FsEntry_tree_ind;
    intros e2 Hsame Huniq dirPath nodeName w.
  { by inv Hsame. }
  inversion Hsame as [|? ? l l2 Hperm Hall]; subst.
  simpl in Huniq. apply andb_true_iff in Huniq as [Hnd Huniq].
  apply bool_decide_eq_true in Hnd.
  simpl. fold (direntsOf buildFromDirectory l1) (direntsOf buildFromDirectory l2).
  apply buildNode_alike.
  rewrite (subdirsOf_Permutation _ l1 l) by done.
  apply subdirsOf_alike. unfold direntsOf. apply Forall2_fmap.
  apply Is_true_true, forallb_True in Huniq. rewrite Hperm in IH, Huniq.
  assert (Forall (λ d, uniqueNames d.2 = true
                       ∧ ∀ e2, sameContent d.2 e2 → uniqueNames d.2 = true →
                               ∀ p n w, buildFromDirectory d.2 p n w
                                        = buildFromDirectory e2 p n w) l) as Hl.
  { apply Forall_and. split; [|done].
    eapply Forall_impl; [exact Huniq|]. intros d Hd. by apply Is_true_true. }
  eapply Forall2_Forall_l; [|exact Hl|exact Hall].
  intros a b (Hu & Hbuild) (Hname & Hsub). split_and!; simpl.
  - done.
  - by apply sameContent_isFolder.
  - by apply Hbuild.
Qed.

End Determinism.

(** *** The views of the data directory *)

Lemma find_name_Some (l : list (string * FsEntry)) d :
  NoDup (map fst l) → d ∈ l → List.find (λ x, String.eqb x.1 d.1) l = Some d.
Proof.
  induction l as [|c l IH]; intros Hnd Hd; [by inv Hd|]. simpl.
  destruct (String.eqb_spec c.1 d.1) as [Hcd|Hcd].
  - f_equal. apply (NoDup_fst_inj (c :: l)); [done|by left|done..].
  - simpl in Hnd. apply NoDup_cons in Hnd as [_ Hnd].
    inv Hd; try done. by apply IH.
Qed.

Lemma find_name_Permutation (l1 l : list (string * FsEntry)) name :
  NoDup (map fst l1) → l1 ≡ₚ l →
  List.find (λ x, String.eqb x.1 name) l1 = List.find (λ x, String.eqb x.1 name) l.
Proof.
  intros Hnd Hperm.
  destruct (List.find _ l1) as [d|] eqn:E1.
  - apply find_some in E1 as [Hd <-%String.eqb_eq].
    symmetry. apply find_name_Some.
    + by rewrite <-Hperm.
    + rewrite <-Hperm. by apply list_elem_of_In.
  - destruct (List.find _ l) as [d|] eqn:E2; [|done].
    apply find_some in E2 as [Hd Hname].
    eapply find_none in E1; [|apply list_elem_of_In; rewrite Hperm; by apply list_elem_of_In].
    simpl in *. congruence.
Qed.

Lemma find_name_Forall2 (l l2 : list (string * FsEntry)) name :
  Forall2 (λ a b, a.1 = b.1 ∧ sameContent a.2 b.2) l l2 →
  option_Forall2 (λ a b, a ∈ l ∧ sameContent a.2 b.2)
    (List.find (λ x, String.eqb x.1 name) l) (List.find (λ x, String.eqb x.1 name) l2).
Proof.
  induction 1 as [|a b l l2 [Hname Hsame] _ IH]; simpl; [constructor|].
  rewrite <-Hname. destruct (String.eqb a.1 name).
  - constructor. split; [by left|done].
  - destruct IH as [x y [Hx Hxy]|]; constructor. split; [by right|done].
Qed.

Section DeterminismOfGenerateAll.
Context `{Host}.

Lemma getViewDirectories_sameContent e1 e2 dataDirPath w :
  sameContent e1 e2 →
  getViewDirectories (Some e1) dataDirPath w = getViewDirectories (Some e2) dataDirPath w.
Proof.
  destruct 1 as [|settingsFile l1 l l2 Hperm Hall]; [done|]. simpl.
  cut (arraySort defaultCompare (map fst (List.filter isView l1))
       = arraySort defaultCompare (map fst (List.filter isView l2))).
  { unfold isView. by intros ->. }
  trans (arraySort defaultCompare (map fst (List.filter isView l))).
  - apply arraySort_unique.
    + apply defaultCompare_total.
    + apply defaultCompare_trans.
    + intros x y _ _. apply defaultCompare_antisym.
    + apply fmap_Permutation, filter_Permutation_bool, Hperm.
  - f_equal. clear Hperm. induction Hall as [|a b l l2 [Hname Hsame] _ IH]; [done|].
    assert (isView a = isView b) as Hview.
    { unfold isView. by rewrite Hname, (sameContent_isFolder _ _ Hsame). }
    simpl. rewrite Hview. destruct (isView b); simpl; by rewrite IH, ?Hname.
Qed.

(** Compiling the view [viewName] of the data directory. *)
Lemma view_sameContent e1 e2 viewName viewPath w :
  sameContent e1 e2 → uniqueNames e1 = true →
  match entryAt (Some e1) viewName with
  | Some dir => buildFromDirectory dir viewPath viewName
  | None => throw (ENOENT viewPath)
  end w
  = match entryAt (Some e2) viewName with
    | Some dir => buildFromDirectory dir viewPath viewName
    | None => throw (ENOENT viewPath)
    end w.
Proof.
  intros Hsame Huniq.
  destruct Hsame as [|settingsFile l1 l l2 Hperm Hall]; [done|]. simpl.
  simpl in Huniq. apply andb_true_iff in Huniq as [Hnd Huniq].
  apply bool_decide_eq_true in Hnd.
  rewrite (find_name_Permutation l1 l) by done.
  destruct (find_name_Forall2 l l2 viewName Hall) as [a b [Ha Hab]|]; simpl; [|done].
  apply buildFromDirectory_sameContent; [done|].
  rewrite forallb_forall in Huniq. apply Huniq.
  apply list_elem_of_In. by rewrite Hperm.
Qed.

Lemma generateViews_sameContent e1 e2 dataDirPath outputDir views :
  sameContent e1 e2 → uniqueNames e1 = true →
  ∀ generatedViews w,
    generateViews (Some e1) dataDirPath outputDir views generatedViews w
    = generateViews (Some e2) dataDirPath outputDir views generatedViews w.
Proof.
  intros Hsame Huniq.
  induction views as [|viewName views IH]; intros generatedViews w; [done|].
  cbn [generateViews]. unfold mbind, M_bind.
  rewrite (view_sameContent e1 e2) by done.
  destruct (match entryAt (Some e2) viewName with _ => _ end w) as [[viewData| |] w1];
    [|done..].
  destruct (writeFileSync _ _ w1) as [[[]| |] w2]; [|done..].
  destruct (console_log _ w2) as [[[]| |] w3]; [|done..].
  apply IH.
Qed.

(** [generateAll] runs alike however the directories are listed. *)
Lemma generateAll_sameContent e1 e2 dataDirPath outputDir w :
  sameContent e1 e2 → uniqueNames e1 = true →
  generateAll (Some e1) dataDirPath outputDir w
  = generateAll (Some e2) dataDirPath outputDir w.
Proof.
  intros Hsame Huniq.
  unfold generateAll, mbind, M_bind, existsSync_outputDir, mkdirSync_outputDir, mret, M_ret.
  destruct (outputDirExists w); cbv beta iota;
    rewrite (getViewDirectories_sameContent e1 e2) by done;
    (destruct (getViewDirectories (Some e2) dataDirPath _) as [[views| |] w3]; [|done..]);
    by rewrite (generateViews_sameContent e1 e2).
Qed.

End DeterminismOfGenerateAll.

(** *** What a run adds to the world *)

Lemma extend_empty w : extend w emptyWorld = w.
Proof.
  destruct w as [c e f]. unfold extend. simpl.
  by rewrite app_nil_r, orb_false_r, (left_id_L ∅ (∪)).
Qed.

Lemma extend_assoc w d1 d2 : extend (extend w d1) d2 = extend w (extend d1 d2).
Proof.
  unfold extend. simpl. by rewrite (assoc_L (++)), orb_assoc, (assoc_L (∪)).
Qed.

Lemma extend_twice w d : outputFiles (extend (extend w d) d) = outputFiles (extend w d).
Proof. simpl. by rewrite (assoc_L (∪)), (idemp_L (∪)). Qed.

Lemma framed_ret {A} (a : A) : framed (mret a).
Proof. intros w. unfold mret, M_ret. simpl. by rewrite extend_empty. Qed.

Lemma framed_throw {A} e : framed (@throw A e).
Proof. intros w. unfold throw. simpl. by rewrite extend_empty. Qed.

Lemma framed_engineDefined {A} : framed (@engineDefined A).
Proof. intros w. unfold engineDefined. simpl. by rewrite extend_empty. Qed.

Lemma framed_bind {A B} (m : M A) (f : A → M B) :
  framed m → (∀ a, framed (f a)) → framed (m ≫= f).
Proof.
  intros Hm Hf w. unfold mbind, M_bind. rewrite (Hm w).
  destruct (m emptyWorld) as [[a| |] d]; simpl; [|done..].
  rewrite (Hf a (extend w d)), (Hf a d). simpl. by rewrite extend_assoc.
Qed.

Lemma framed_console_warn args : framed (console_warn args).
Proof. intros [c e f]. unfold console_warn, extend. simpl.
  by rewrite orb_false_r, (left_id_L ∅ (∪)). Qed.

Lemma framed_console_log args : framed (console_log args).
Proof. intros [c e f]. unfold console_log, extend. simpl.
  by rewrite orb_false_r, (left_id_L ∅ (∪)). Qed.

Lemma framed_forOf {A B} (xs : list A) (body : A → M B) :
  Forall (λ x, framed (body x)) xs → framed (forOf xs body).
Proof.
  induction 1 as [|x xs Hx _ IH]; simpl; [apply framed_ret|].
  apply framed_bind; [done|]. intros y.
  apply framed_bind; [done|]. intros ys. apply framed_ret.
Qed.

Section Framed.
Context `{Host}.

Lemma framed_writeFileSync path content : framed (writeFileSync path content).
Proof.
  intros [c e f]. unfold writeFileSync, extend. simpl.
  by rewrite app_nil_r, orb_false_r, <-insert_union_l, (left_id_L ∅ (∪)).
Qed.

(** The test for the output directory and its creation, together. *)
Lemma framed_ensure_outputDir :
  framed (present ← existsSync_outputDir;
          if present : bool then mret () else mkdirSync_outputDir).
Proof.
  intros [c [] f];
    unfold extend, emptyWorld, mbind, M_bind, existsSync_outputDir,
           mkdirSync_outputDir, mret, M_ret;
    cbn [console outputDirExists outputFiles fst snd];
    by rewrite app_nil_r, ?orb_true_r, (left_id_L ∅ (∪)).
Qed.

Lemma framed_loadSettings settingsPath settingsFile :
  framed (loadSettings settingsPath settingsFile).
Proof.
  destruct settingsFile as [[default|error]|]; simpl; try apply framed_ret.
  apply framed_bind.
  - destruct error; try apply framed_ret; apply framed_throw.
  - intros message. apply framed_bind; [apply framed_console_warn|].
    intros _. apply framed_ret.
Qed.

Lemma framed_sortChildren children : framed (sortChildren children).
Proof.
  unfold sortChildren. repeat case_match;
    auto using @framed_ret, @framed_throw, @framed_engineDefined.
Qed.

Lemma framed_buildNode settingsFile dirents dirPath nodeName :
  Forall (λ d, ∀ p n, framed (dirent_build d p n)) dirents →
  framed (buildNode settingsFile dirents dirPath nodeName).
Proof.
  intros Hdirents. unfold buildNode.
  apply framed_bind; [apply framed_loadSettings|]. intros settings.
  case_match; [apply framed_ret|].
  apply framed_bind.
  - apply framed_forOf. unfold subdirsOf.
    rewrite arraySort_perm. rewrite Forall_forall in Hdirents |- *.
    intros d Hd. apply Hdirents.
    apply list_elem_of_In. apply list_elem_of_In, filter_In in Hd. tauto.
  - intros children. apply framed_bind; [apply framed_sortChildren|].
    intros sorted. apply framed_ret.
Qed.

Lemma framed_buildFromDirectory dir :
  ∀ dirPath nodeName, framed (buildFromDirectory dir dirPath nodeName).
Proof.
  induction dir as [|settingsFile entries IH] using FsEntry_tree_ind;
    intros dirPath nodeName; simpl; [apply framed_throw|].
  apply framed_buildNode. by apply Forall_fmap.
Qed.

Lemma framed_generateViews dataDir dataDirPath outputDir views :
  ∀ generatedViews,
    framed (generateViews dataDir dataDirPath outputDir views generatedViews).
Proof.
  induction views as [|viewName views IH]; intros generatedViews; simpl;
    [apply framed_ret|].
  apply framed_bind.
  { case_match; [apply framed_buildFromDirectory|apply framed_throw]. }
  intros viewData. apply framed_bind; [apply framed_writeFileSync|].
  intros _. apply framed_bind; [apply framed_console_log|]. intros _. apply IH.
Qed.

Lemma framed_getViewDirectories dataDir dataDirPath :
  framed (getViewDirectories dataDir dataDirPath).
Proof.
  destruct dataDir as [[|settingsFile entries]|]; simpl;
    [apply framed_throw|apply framed_ret|].
  apply framed_bind; [apply framed_console_warn|]. intros _. apply framed_ret.
Qed.

Lemma bind_assoc {A B C} (m : M A) (f : A → M B) (g : B → M C) w :
  (m ≫= (λ a, f a ≫= g)) w = ((m ≫= f) ≫= g) w.
Proof. unfold mbind, M_bind. by destruct (m w) as [[a| |] w1]. Qed.

Lemma framed_generateAll dataDir dataDirPath outputDir :
  framed (generateAll dataDir dataDirPath outputDir).
Proof.
  assert (framed ((present ← existsSync_outputDir;
                   if present : bool then mret () else mkdirSync_outputDir) ≫=
                  (λ _, views ← getViewDirectories dataDir dataDirPath;
                        generatedViews ←
                          generateViews dataDir dataDirPath outputDir views (VObj []);
                        writeFileSync (path_join outputDir "index.js")
                                      (moduleSource generatedViews);;
                        console_log [VStr ("Generated: " ++ path_join outputDir "index.js")];;
                        mret generatedViews))) as Hframed.
  { apply framed_bind; [apply framed_ensure_outputDir|]. intros _.
    apply framed_bind; [apply framed_getViewDirectories|]. intros views.
    apply framed_bind; [apply framed_generateViews|]. intros generatedViews.
    apply framed_bind; [apply framed_writeFileSync|]. intros _.
    apply framed_bind; [apply framed_console_log|]. intros _. apply framed_ret. }
  assert (∀ w, generateAll dataDir dataDirPath outputDir w = _ w) as Hassoc
    by (intros w; apply bind_assoc).
  intros w. rewrite !Hassoc. apply Hframed.
Qed.

End Framed.

Lemma sameContent_refl e : sameContent e e.
Proof.
  induction e as [|settingsFile entries IH] using FsEntry_tree_ind; [constructor|].
  apply (same_Folder _ entries entries entries); [done|].
  induction IH; constructor; auto.
Qed.

(** C6.  Two runs of [generateAll] over the same directory tree with the
    same settings, whatever the order in which each run is given the
    entries of a directory: from one world they end alike, and the
    second run after the first returns what the first returned and
    leaves every output file as the first wrote it. *)
Theorem generateAll_deterministic `{Host} data1 data2 dataDirPath outputDir w :
  sameContent data1 data2 → uniqueNames data1 = true →
  let first := generateAll (Some data1) dataDirPath outputDir w in
  let second := generateAll (Some data2) dataDirPath outputDir first.2 in
  generateAll (Some data2) dataDirPath outputDir w = first
  ∧ second.1 = first.1
  ∧ outputFiles second.2 = outputFiles first.2.
Proof.
  intros Hsame Huniq first second. split.
  { symmetry. by apply generateAll_sameContent. }
  subst second. rewrite <-(generateAll_sameContent data1 data2) by done.
  subst first.
  pose proof (framed_generateAll (Some data1) dataDirPath outputDir) as Hframed.
  rewrite (Hframed w). cbn [fst snd]. rewrite (Hframed (extend w _)). cbn [fst snd].
  split; [done|]. apply extend_twice.
Qed.

(** ** The theorems at work on the reference host *)

Section Instances.
Import Reference.
Local Existing Instance Reference.host.

Lemma ViewA_compiles :
  buildFromDirectory ViewA "/data/ViewA" "ViewA" emptyWorld
  = (Returned Scenario.ViewANode, emptyWorld).
Proof. reflexivity. Qed.

Lemma Beta_inTree : inTree Scenario.BetaNode Scenario.ViewANode.
Proof.
  eapply inTree_child; [reflexivity| |apply inTree_here].
  apply list_elem_of_further, list_elem_of_here.
Qed.

Lemma leaf_branch_exclusive_witness :
  buildFromDirectory ViewA "/data/ViewA" "ViewA" emptyWorld
    = (Returned Scenario.ViewANode, emptyWorld)
  ∧ inTree Scenario.BetaNode Scenario.ViewANode
  ∧ xorb (Js.has Scenario.BetaNode "size") (Js.has Scenario.BetaNode "children") = true
  ∧ (Js.has Scenario.BetaNode "children" = true →
     ∃ kids, Js.get Scenario.BetaNode "children" = VArr kids ∧ kids ≠ []).
Proof.
  split; [exact ViewA_compiles|]. split; [exact Beta_inTree|].
  exact (leaf_branch_exclusive ViewA "/data/ViewA" "ViewA" emptyWorld
           Scenario.ViewANode emptyWorld ViewA_compiles
           Scenario.BetaNode Beta_inTree).
Defined.

Lemma shuffled_compiles :
  buildFromDirectory shuffled "/data/V/fruit" "fruit" emptyWorld
  = (Returned shuffledNode, emptyWorld).
Proof. reflexivity. Qed.

Lemma children_sorted_by_name_witness :
  compilable shuffled = true
  ∧ buildFromDirectory shuffled "/data/V/fruit" "fruit" emptyWorld
    = (Returned shuffledNode, emptyWorld)
  ∧ Js.get shuffledNode "children" = VArr [appleNode; bananaNode]
  ∧ ∃ x y, Js.get appleNode "name" = VStr x ∧ Js.get bananaNode "name" = VStr y
           ∧ (localeCompare x y ≤ 0)%Z.
Proof.
  split; [reflexivity|]. split; [exact shuffled_compiles|]. split; [reflexivity|].
  exact (proj2 (children_sorted_by_name shuffled "/data/V/fruit" "fruit" emptyWorld)
           shuffledNode emptyWorld shuffled_compiles
           shuffledNode [appleNode; bananaNode] (inTree_here _) eq_refl
           0 appleNode bananaNode eq_refl eq_refl).
Defined.

(** C3, as the specification has it, fails: [apple] is sorted before
    [Banana], and ["apple" <= "Banana"] is false. *)
Lemma children_sorted_counterexample :
  ¬ sorted_as_described shuffled "/data/V/fruit" "fruit" emptyWorld.
Proof.
  intros Hclaim.
  destruct (Hclaim shuffledNode emptyWorld shuffled_compiles
              shuffledNode [appleNode; bananaNode] (inTree_here _) eq_refl
              0 appleNode bananaNode eq_refl eq_refl)
    as (x & y & [= <-] & [= <-] & Hle).
  vm_compute in Hle. by apply Hle.
Qed.

Lemma two_level_tree_witness :
  [Scenario.Beta; Scenario.Alpha] ≡ₚ [Scenario.Alpha; Scenario.Beta]
  ∧ (localeCompare "Alpha" "Beta" ≤ 0)%Z
  ∧ buildFromDirectory ViewA "/data/ViewA" "ViewA" emptyWorld
    = (Returned Scenario.ViewANode, emptyWorld).
Proof.
  assert ([Scenario.Beta; Scenario.Alpha] ≡ₚ [Scenario.Alpha; Scenario.Beta]) as Hperm
    by apply perm_swap.
  assert (localeCompare "Alpha" "Beta" ≤ 0)%Z as Horder by (vm_compute; discriminate).
  split; [exact Hperm|]. split; [exact Horder|].
  exact (two_level_tree _ "/data/ViewA" emptyWorld Hperm Horder).
Defined.

(** C4, as the specification has it, fails: the name of [ViewA] has
    no space. *)
Lemma two_level_tree_counterexample :
  (buildFromDirectory (Folder None [Scenario.Alpha; Scenario.Beta])
     "/data/ViewA" "ViewA" emptyWorld).1
  ≠ Returned Scenario.describedViewANode.
Proof. vm_compute. discriminate. Qed.

Lemma zeroSized_compiles :
  buildFromDirectory zeroSized "/data/V/payments" "payments" emptyWorld
  = (Returned zeroSizedNode, emptyWorld).
Proof. reflexivity. Qed.

Lemma falsy_size_defaults_witness :
  buildFromDirectory zeroSized "/data/V/payments" "payments" emptyWorld
    = (Returned zeroSizedNode, emptyWorld)
  ∧ Js.get zeroSizedNode "size" = VNum (Num 1000)
  ∧ Js.get zeroSizedNode "size" ≠ VNum (Num 0).
Proof.
  split; [exact zeroSized_compiles|].
  destruct (falsy_size_defaults zeroSized "/data/V/payments" "payments" emptyWorld
              zeroSizedNode emptyWorld zeroSized_compiles) as [Hdefault Hnonzero].
  split.
  - exact (Hdefault _ _ eq_refl eq_refl eq_refl).
  - exact (Hnonzero zeroSizedNode (inTree_here _) eq_refl).
Defined.

Lemma default_name_formatted_witness :
  buildFromDirectory timeAndAttendance "/data/V/time-and-attendance"
    "time-and-attendance" emptyWorld
    = (Returned (VObj [("name", VStr "Time And Attendance");
                       ("description", VStr "Time And Attendance segment");
                       ("size", VNum (Num 1000))]), emptyWorld)
  ∧ Js.get (metadataOf None) "name" = VUndefined
  ∧ (∃ name, VStr "Time And Attendance" = VStr name
             ∧ ∀ i, Str.at_ name i = titleCasedAt "time-and-attendance" i)
  ∧ formatNodeName "time-and-attendance" = "Time And Attendance".
Proof.
  split; [reflexivity|]. split; [reflexivity|].
  exact (default_name_formatted None [] "/data/V/time-and-attendance"
           "time-and-attendance" emptyWorld _ emptyWorld eq_refl eq_refl).
Defined.

Lemma nodeJsTeam_compiles :
  buildFromDirectory nodeJsTeam "/data/V/node.js-team" "node.js-team" emptyWorld
  = (Returned nodeJsTeamNode, emptyWorld).
Proof. reflexivity. Qed.

Lemma describedName_nodeJsTeam : describedName "node.js-team" = "Node.js Team".
Proof. reflexivity. Qed.

Lemma describedName_timeAndAttendance :
  describedName "time-and-attendance" = "Time And Attendance".
Proof. reflexivity. Qed.

(** C7, as the specification has it, fails: a word of the code starts
    after any character that is no letter, digit or underscore, so the
    [js] after the full stop is capitalized. *)
Lemma default_name_counterexample :
  ¬ name_as_described nodeJsTeam "/data/V/node.js-team" "node.js-team" emptyWorld.
Proof.
  intros Hclaim.
  specialize (Hclaim _ _ nodeJsTeamNode emptyWorld eq_refl nodeJsTeam_compiles eq_refl).
  vm_compute in Hclaim. discriminate.
Qed.

Lemma renamed_compiles :
  buildFromDirectory renamed "/data/V/time-and-attendance" "time-and-attendance" emptyWorld
  = (Returned renamedNode, emptyWorld).
Proof. reflexivity. Qed.

Lemma description_default_witness :
  buildFromDirectory renamed "/data/V/time-and-attendance" "time-and-attendance" emptyWorld
    = (Returned renamedNode, emptyWorld)
  ∧ Js.get renamedNode "description" = VStr "Time And Attendance segment".
Proof.
  split; [exact renamed_compiles|].
  exact (description_default _ _ "/data/V/time-and-attendance" "time-and-attendance"
           emptyWorld renamedNode emptyWorld renamed_compiles).
Defined.

(** C2, as the specification has it, fails: with a [name] and no
    [description] in the metadata, the description is built from the
    directory name, not from the [name]. *)
Lemma description_counterexample :
  ¬ description_as_described renamed "/data/V/time-and-attendance"
      "time-and-attendance" emptyWorld.
Proof.
  intros Hclaim.
  specialize (Hclaim _ _ renamedNode emptyWorld eq_refl renamed_compiles).
  vm_compute in Hclaim. discriminate.
Qed.

(** C5 fails on the code: the [contactEmail] of the metadata is not in
    the node, the generator copying [contact] instead. *)
Theorem contactEmail_dropped :
  (buildFromDirectory attributed "/data/V/time-and-attendance" "time-and-attendance"
     emptyWorld).1
  = Returned (VObj [("name", VStr "Time And Attendance");
                    ("description", VStr "Employee time tracking");
                    ("owner", VStr "Workforce Management Team");
                    ("size", VNum (Num 1000))]).
Proof. reflexivity. Qed.

(** C8 fails on the code when the module throws [null]: nothing is
    printed and the compilation of the view, here of a directory with
    one such subdirectory, ends in a TypeError. *)
Theorem thrown_null_aborts :
  buildFromDirectory
    (Folder None [("Alpha", Folder None []);
                  ("Beta", Folder (Some (Rejects VNull)) [("_settings.js", File)])])
    "/data/ViewA" "ViewA" emptyWorld
  = (Threw (TypeError "Cannot read properties of null or undefined (reading 'message')"),
     emptyWorld).
Proof. reflexivity. Qed.

Lemma dataAsListed_sameContent : sameContent dataAsListed dataListedOtherwise.
Proof.
  apply (same_Folder _ _
           [(".git", Folder None []); ("ViewB", Folder None [payments]);
            ("ViewA", Folder None [Scenario.Alpha; Scenario.Beta])]).
  { etrans; [apply perm_swap|]. etrans; [apply perm_skip, perm_swap|].
    etrans; [apply perm_swap|]. done. }
  repeat constructor; simpl; try apply sameContent_refl.
  apply (same_Folder _ _ [Scenario.Beta; Scenario.Alpha]); [apply perm_swap|].
  repeat constructor; apply sameContent_refl.
Qed.

Lemma generateAll_deterministic_witness :
  sameContent dataAsListed dataListedOtherwise
  ∧ uniqueNames dataAsListed = true
  ∧ let first := generateAll (Some dataAsListed) "/data" "/out" emptyWorld in
    let second := generateAll (Some dataListedOtherwise) "/data" "/out" first.2 in
    generateAll (Some dataListedOtherwise) "/data" "/out" emptyWorld = first
    ∧ second.1 = first.1
    ∧ outputFiles second.2 = outputFiles first.2.
Proof.
  split; [exact dataAsListed_sameContent|]. split; [reflexivity|].
  exact (generateAll_deterministic dataAsListed dataListedOtherwise "/data" "/out"
           emptyWorld dataAsListed_sameContent eq_refl).
Defined.

End Instances.

(** * More properties of the generator *)

(** ** Display names *)

Lemma replaceHyphens_length s : String.length (replaceHyphens s) = String.length s.
Proof. induction s as [|c s IH]; simpl; by rewrite ?IH. Qed.

Lemma capitalizeWords_length prevWord s :
  String.length (capitalizeWords prevWord s) = String.length s.
Proof. revert prevWord. induction s as [|c s IH]; intros prevWord; simpl; by rewrite ?IH. Qed.

Lemma toUpperCase_not_hyphen c : Str.toUpperCase c = "-"%char → c = "-"%char.
Proof.
  destruct c as [b0 b1 b2 b3 b4 b5 b6 b7].
  destruct b0, b1, b2, b3, b4, b5, b6, b7; vm_compute; congruence.
Qed.

(** X1.  A display name has the length of the directory name and no
    hyphen in it. *)
Theorem formatNodeName_shape s :
  String.length (formatNodeName s) = String.length s
  ∧ ∀ i, Str.at_ (formatNodeName s) i ≠ Some "-"%char.
Proof.
  split.
  { unfold formatNodeName. by rewrite capitalizeWords_length, replaceHyphens_length. }
  intros i. rewrite formatNodeName_at. unfold titleCasedAt.
  destruct (Str.at_ s i) as [c|]; [|done]. simpl.
  destruct (Ascii.eqb_spec c "-") as [->|Hc]; [done|].
  destruct (Str.isWordChar c && startsWord s i).
  - intros [= E%toUpperCase_not_hyphen]. done.
  - congruence.
Qed.

(** One character of [formatNodeName], run twice. *)
Lemma capitalize_char_twice (prevWord : bool) (c : ascii) :
  let spaced (c : ascii) := if Ascii.eqb c "-" then " "%char else c in
  let cased (c : ascii) :=
    if Str.isWordChar c && negb prevWord then Str.toUpperCase c else c in
  cased (spaced (cased (spaced c))) = cased (spaced c)
  ∧ Str.isWordChar (spaced (cased (spaced c))) = Str.isWordChar (spaced c).
Proof.
  destruct c as [b0 b1 b2 b3 b4 b5 b6 b7].
  destruct prevWord, b0, b1, b2, b3, b4, b5, b6, b7; vm_compute; done.
Qed.

Lemma capitalizeWords_twice prevWord s :
  capitalizeWords prevWord (replaceHyphens (capitalizeWords prevWord (replaceHyphens s)))
  = capitalizeWords prevWord (replaceHyphens s).
Proof.
  revert prevWord. induction s as [|c s IH]; intros prevWord; [done|].
  cbn [replaceHyphens capitalizeWords].
  destruct (capitalize_char_twice prevWord c) as [Hchar Hword].
  cbv zeta in Hchar, Hword. rewrite Hchar, Hword. by rewrite IH.
Qed.

(** X2.  Formatting a display name again changes nothing. *)
Theorem formatNodeName_idempotent s :
  formatNodeName (formatNodeName s) = formatNodeName s.
Proof. apply capitalizeWords_twice. Qed.

(** ** Children and subdirectories *)

Lemma insertSorted_fmap {A B} (g : A → B) (comparefn : B → B → Z) x l :
  insertSorted comparefn (g x) (g <$> l)
  = g <$> insertSorted (λ a b, comparefn (g a) (g b)) x l.
Proof.
  induction l as [|y l IH]; [done|]. simpl.
  destruct (comparefn (g x) (g y) <=? 0)%Z; [done|]. simpl. f_equal. exact IH.
Qed.

Lemma arraySort_fmap {A B} (g : A → B) (comparefn : B → B → Z) l :
  arraySort comparefn (g <$> l) = g <$> arraySort (λ a b, comparefn (g a) (g b)) l.
Proof.
  induction l as [|x l IH]; [done|].
  change (insertSorted comparefn (g x) (arraySort comparefn (g <$> l))
          = g <$> insertSorted (λ a b, comparefn (g a) (g b)) x
                    (arraySort (λ a b, comparefn (g a) (g b)) l)).
  rewrite IH. apply insertSorted_fmap.
Qed.

Lemma subdirectories_elem entries d :
  d ∈ subdirectories entries → d ∈ entries ∧ qualifyingEntry d = true.
Proof.
  unfold subdirectories. rewrite arraySort_perm.
  intros [Hd Hq]%list_elem_of_In%filter_In. split; [by apply list_elem_of_In|done].
Qed.

Section Children.
Context `{Host}.

Lemma subdirsOf_direntsOf build entries :
  subdirsOf (direntsOf build entries) = direntsOf build (subdirectories entries).
Proof.
  unfold subdirsOf. rewrite filter_direntsOf. unfold direntsOf.
  by rewrite (arraySort_fmap (λ d, mkDirent d.1 (isFolder d.2) (build d.2))).
Qed.

(** What a branch is made of: the subdirectories compiled in the order
    of their names, then sorted. *)
Lemma branch_compiled settingsFile entries dirPath nodeName w node w' :
  buildFromDirectory (Folder settingsFile entries) dirPath nodeName w
    = (Returned node, w') →
  ¬ isLeafDirectory entries →
  ∃ compiled sorted w2 w3,
    Forall2 (λ d k, ∃ w1 w1',
               buildFromDirectory d.2 (path_join dirPath d.1) d.1 w1 = (Returned k, w1'))
            (subdirectories entries) compiled
    ∧ sortChildren compiled w2 = (Returned sorted, w3)
    ∧ node = branchNode (metadataOf settingsFile) nodeName sorted.
Proof.
  intros Hrun Hbranch.
  apply buildFromDirectory_Returned in Hrun
    as [[Hleaf _]|(_ & kids & sorted & w1 & w2 & w3 & Hkids & Hsorted & ->)]; [done|].
  exists kids, sorted, w2, w3. split_and!; [|done..].
  apply forOf_Returned in Hkids. rewrite subdirsOf_direntsOf in Hkids.
  unfold direntsOf in Hkids. by apply Forall2_fmap_l in Hkids.
Qed.

(** A child of a compiled directory is the compilation of one of its
    subdirectories. *)
Lemma child_compiled settingsFile entries dirPath nodeName w node w' kids c :
  buildFromDirectory (Folder settingsFile entries) dirPath nodeName w
    = (Returned node, w') →
  Js.get node "children" = VArr kids → c ∈ kids →
  ∃ d w1 w1', d ∈ entries ∧ qualifyingEntry d = true
    ∧ buildFromDirectory d.2 (path_join dirPath d.1) d.1 w1 = (Returned c, w1').
Proof.
  intros Hrun Hkids Hc.
  destruct (decide (isLeafDirectory entries)) as [Hleaf|Hbranch].
  { apply buildFromDirectory_Returned in Hrun as [[_ ->]|[? _]]; [|done].
    by rewrite (proj2 (leafNode_children _ _)) in Hkids. }
  destruct (branch_compiled _ _ _ _ _ _ _ Hrun Hbranch)
    as (compiled & sorted & w2 & w3 & Hall & Hsort & ->).
  rewrite (proj2 (branchNode_children _ _ _)) in Hkids. injection Hkids as ->.
  apply sortChildren_Returned in Hsort as (Hperm & _).
  rewrite Hperm in Hc. apply list_elem_of_lookup in Hc as [i Hi].
  destruct (Forall2_lookup_r _ _ _ _ _ Hall Hi) as (d & Hd & w1 & w1' & Hbuild).
  apply list_elem_of_lookup_2, subdirectories_elem in Hd as [Hd Hq].
  by exists d, w1, w1'.
Qed.

(** A node of a compiled tree is the compilation of a directory of the
    tree, under that directory's name. *)
Lemma inTree_reaches dir :
  ∀ dirPath nodeName w tree w' node,
    buildFromDirectory dir dirPath nodeName w = (Returned tree, w') →
    inTree node tree →
    ∃ inner innerName innerPath w1 w1',
      reaches inner innerName dir nodeName
      ∧ buildFromDirectory inner innerPath innerName w1 = (Returned node, w1').
Proof.
  induction dir as [|settingsFile entries IH] using FsEntry_tree_ind;
    intros dirPath nodeName w tree w' node Hrun Hnode; [done|].
  inversion Hnode as [|? kids c Hkids Hc Hin]; subst.
  { exists (Folder settingsFile entries), nodeName, dirPath, w, w'.
    split; [constructor|done]. }
  destruct (child_compiled _ _ _ _ _ _ _ _ _ Hrun Hkids Hc)
    as (d & w1 & w1' & Hd & Hq & Hbuild).
  rewrite Forall_forall in IH.
  destruct (IH d Hd _ _ _ _ _ _ Hbuild Hin)
    as (inner & innerName & innerPath & w2 & w2' & Hreach & Hinner).
  exists inner, innerName, innerPath, w2, w2'. split; [|done].
  by eapply reaches_down.
Qed.

(** X3.  The children of a compiled branch are the compilations of its
    subdirectories that are not hidden and not [node_modules], one
    child for each, every subdirectory compiled under its own name. *)
Theorem children_are_the_subdirectories settingsFile entries dirPath nodeName w node w' :
  buildFromDirectory (Folder settingsFile entries) dirPath nodeName w
    = (Returned node, w') →
  ¬ isLeafDirectory entries →
  ∃ kids compiled,
    Js.get node "children" = VArr kids
    ∧ kids ≡ₚ compiled
    ∧ Forall2 (λ d k, ∃ w1 w1',
                 buildFromDirectory d.2 (path_join dirPath d.1) d.1 w1 = (Returned k, w1'))
              (subdirectories entries) compiled.
Proof.
  intros Hrun Hbranch.
  destruct (branch_compiled _ _ _ _ _ _ _ Hrun Hbranch)
    as (compiled & sorted & w2 & w3 & Hall & Hsort & ->).
  exists sorted, compiled. split; [apply branchNode_children|].
  split; [|done]. by apply sortChildren_Returned in Hsort as (Hperm & _).
Qed.

(** X4.  Every node of a compiled tree is what [buildFromDirectory]
    returns for one directory of the tree, reached through
    subdirectories that are not hidden and not [node_modules]. *)
Theorem node_is_a_directory dir dirPath nodeName w tree w' node :
  buildFromDirectory dir dirPath nodeName w = (Returned tree, w') →
  inTree node tree →
  ∃ inner innerName innerPath w1 w1',
    reaches inner innerName dir nodeName
    ∧ buildFromDirectory inner innerPath innerName w1 = (Returned node, w1').
Proof. apply inTree_reaches. Qed.

End Children.

(** ** The fields of a node *)

Ltac sublist_of_literal :=
  repeat first [apply sublist_nil | apply sublist_skip | apply sublist_cons].

Lemma has_keysOf node k : Js.has node k = true → k ∈ keysOf node.
Proof.
  destruct node as [| | | | | |props]; try done. simpl.
  induction props as [|[k' v] props IH]; simpl; [done|].
  destruct (String.eqb_spec k k') as [->|_]; [by left|]. right. by apply IH.
Qed.

(** X5.  A node of a compiled tree has no key but [name],
    [description], [nodeColor], [owner], [contact], [size] and
    [children], and has its keys in this order. *)
Theorem node_keys_in_order `{Host} dir dirPath nodeName w tree w' node :
  buildFromDirectory dir dirPath nodeName w = (Returned tree, w') →
  inTree node tree →
  keysOf node `sublist_of` nodeKeys
  ∧ ∀ k, Js.has node k = true → k ∈ nodeKeys.
Proof.
  intros Hrun%buildFromDirectory_Built Hnode.
  assert (keysOf node `sublist_of` nodeKeys) as Hkeys.
  { destruct (Built_inTree _ _ Hrun Hnode) as [settings name|settings name kids sorted ? ? _ _ _];
      unfold leafNode, branchNode, nodeKeys; node_cases settings; sublist_of_literal. }
  split; [done|].
  intros k Hk%has_keysOf. by eapply elem_of_sublist.
Qed.

Lemma startNode_nodeColor settings nodeName :
  Js.has (startNode settings nodeName) "nodeColor" = Js.truthy (Js.get settings "nodeColor")
  ∧ (Js.truthy (Js.get settings "nodeColor") = true →
     Js.get (startNode settings nodeName) "nodeColor" = Js.get settings "nodeColor").
Proof.
  unfold startNode.
  destruct (Js.truthy (Js.get settings "nodeColor")),
           (Js.truthy (Js.get settings "owner")),
           (Js.truthy (Js.get settings "contact")); done.
Qed.

Lemma startNode_contact_value settings nodeName :
  Js.truthy (Js.get settings "contact") = true →
  Js.get (startNode settings nodeName) "contact" = Js.get settings "contact".
Proof.
  unfold startNode.
  destruct (Js.truthy (Js.get settings "nodeColor")),
           (Js.truthy (Js.get settings "owner")),
           (Js.truthy (Js.get settings "contact")); done.
Qed.

(** X6.  [nodeColor], [owner] and [contact] are in the node exactly
    when the metadata gives a truthy value for them, and then with that
    value. *)
Theorem optional_fields_copied `{Host} settingsFile entries dirPath nodeName w node w' k :
  buildFromDirectory (Folder settingsFile entries) dirPath nodeName w
    = (Returned node, w') →
  k ∈ ["nodeColor"; "owner"; "contact"] →
  Js.has node k = Js.truthy (Js.get (metadataOf settingsFile) k)
  ∧ (Js.truthy (Js.get (metadataOf settingsFile) k) = true →
     Js.get node k = Js.get (metadataOf settingsFile) k).
Proof.
  intros Hrun Hk.
  assert (k ≠ "size" ∧ k ≠ "children") as [Hsize Hchildren].
  { split; intros ->; apply list_elem_of_In in Hk; simpl in Hk; intuition discriminate. }
  destruct (buildFromDirectory_fields _ _ _ _ _ _ _ k Hrun Hsize Hchildren) as [-> ->].
  apply elem_of_cons in Hk as [->|Hk]; [apply startNode_nodeColor|].
  apply elem_of_cons in Hk as [->|Hk]; [apply startNode_owner|].
  apply list_elem_of_singleton in Hk as ->.
  split; [apply startNode_contact|apply startNode_contact_value].
Qed.

Lemma formatNodeName_nonempty s : s ≠ "" → formatNodeName s ≠ "".
Proof. by destruct s. Qed.

Lemma reaches_named inner innerName outer outerName :
  reaches inner innerName outer outerName →
  outerName ≠ "" → namedEntries outer = true →
  innerName ≠ "".
Proof.
  induction 1 as [|settingsFile entries outerName d Hd _ _ IH]; [done|].
  intros _ Hnamed. simpl in Hnamed. rewrite forallb_forall in Hnamed.
  apply list_elem_of_In, Hnamed, andb_true_iff in Hd as [Hname Hsub].
  apply IH; [|done]. apply negb_true_iff in Hname. by apply String.eqb_neq.
Qed.

(** X7.  In a tree compiled from directories with names that are not
    empty, every node has a truthy name and a truthy description: none
    is missing or the empty string. *)
Theorem names_and_descriptions_truthy `{Host} dir dirPath nodeName w tree w' node :
  buildFromDirectory dir dirPath nodeName w = (Returned tree, w') →
  nodeName ≠ "" → namedEntries dir = true →
  inTree node tree →
  Js.truthy (Js.get node "name") = true
  ∧ Js.truthy (Js.get node "description") = true.
Proof.
  intros Hrun Hname Hnamed Hnode.
  destruct (inTree_reaches _ _ _ _ _ _ _ Hrun Hnode)
    as (inner & innerName & innerPath & w1 & w1' & Hreach & Hinner).
  pose proof (reaches_named _ _ _ _ Hreach Hname Hnamed) as HinnerName.
  destruct inner as [|settingsFile entries]; [done|].
  destruct (buildFromDirectory_fields _ _ _ _ _ _ _ "name" Hinner) as [-> _]; [done..|].
  destruct (buildFromDirectory_fields _ _ _ _ _ _ _ "description" Hinner) as [-> _]; [done..|].
  rewrite startNode_name, startNode_description. unfold Js.or. split.
  - destruct (Js.truthy (Js.get _ "name")) eqn:E; [done|]. simpl.
    apply negb_true_iff, String.eqb_neq. by apply formatNodeName_nonempty.
  - destruct (Js.truthy (Js.get _ "description")) eqn:E; [done|]. simpl.
    apply negb_true_iff, String.eqb_neq. by destruct (formatNodeName innerName).
Qed.

(** ** What of the settings is read *)

Lemma loadSettings_resolved `{Host} settingsPath settingsFile w :
  rejects settingsFile = false →
  loadSettings settingsPath settingsFile w = (Returned (metadataOf settingsFile), w).
Proof. by destruct settingsFile as [[default|error]|]. Qed.

(** X8.  [buildFromDirectory] reads six keys of the settings and
    nothing else of them: two directories alike but for settings that
    agree on [name], [description], [nodeColor], [owner], [contact] and
    [size] compile alike.  So an empty object, or a default export that
    is no object, is as good as no [_settings.js]. *)
Theorem settings_read_by_key `{Host} settingsFile1 settingsFile2 entries dirPath nodeName w :
  rejects settingsFile1 = false → rejects settingsFile2 = false →
  (∀ k, k ∈ settingsKeys →
        Js.get (metadataOf settingsFile1) k = Js.get (metadataOf settingsFile2) k) →
  buildFromDirectory (Folder settingsFile1 entries) dirPath nodeName w
  = buildFromDirectory (Folder settingsFile2 entries) dirPath nodeName w.
Proof.
  intros Hload1 Hload2 Hkeys. simpl. unfold buildNode.
  rewrite (bind_eq _ _ _ _ _ (loadSettings_resolved _ _ w Hload1)).
  rewrite (bind_eq _ _ _ _ _ (loadSettings_resolved _ _ w Hload2)).
  unfold startNode.
  rewrite !(Hkeys "name"), !(Hkeys "description"), !(Hkeys "nodeColor"),
          !(Hkeys "owner"), !(Hkeys "contact"), !(Hkeys "size");
    try (apply list_elem_of_In; simpl; tauto).
  done.
Qed.

(** ** What compiling does to the world *)

Section Keeps.
Context (R : relation World) `{!Reflexive R} `{!Transitive R}.

Lemma keeps_ret {A} (a : A) : keeps R (mret a).
Proof. intros w. by unfold mret, M_ret. Qed.

Lemma keeps_throw {A} e : keeps R (@throw A e).
Proof. by intros w. Qed.

Lemma keeps_engineDefined {A} : keeps R (@engineDefined A).
Proof. by intros w. Qed.

Lemma keeps_bind {A B} (m : M A) (f : A → M B) :
  keeps R m → (∀ a, keeps R (f a)) → keeps R (m ≫= f).
Proof.
  intros Hm Hf w. unfold mbind, M_bind. specialize (Hm w).
  destruct (m w) as [[a| |] w1]; simpl in *; [|done..].
  trans w1; [done|apply Hf].
Qed.

Lemma keeps_forOf {A B} (xs : list A) (body : A → M B) :
  Forall (λ x, keeps R (body x)) xs → keeps R (forOf xs body).
Proof.
  induction 1 as [|x xs Hx _ IH]; simpl; [apply keeps_ret|].
  apply keeps_bind; [done|]. intros y.
  apply keeps_bind; [done|]. intros ys. apply keeps_ret.
Qed.

Context `{Host}.

Lemma keeps_sortChildren children : keeps R (sortChildren children).
Proof.
  unfold sortChildren. repeat case_match;
    auto using @keeps_ret, @keeps_throw, @keeps_engineDefined.
Qed.

Lemma keeps_buildNode settingsFile dirents dirPath nodeName :
  keeps R (loadSettings (path_join dirPath "_settings.js") settingsFile) →
  Forall (λ d, ∀ p n, keeps R (dirent_build d p n)) dirents →
  keeps R (buildNode settingsFile dirents dirPath nodeName).
Proof.
  intros Hload Hdirents. unfold buildNode.
  apply keeps_bind; [done|]. intros settings.
  case_match; [apply keeps_ret|].
  apply keeps_bind.
  - apply keeps_forOf. unfold subdirsOf.
    rewrite arraySort_perm. rewrite Forall_forall in Hdirents |- *.
    intros d Hd. apply Hdirents.
    apply list_elem_of_In. apply list_elem_of_In, filter_In in Hd. tauto.
  - intros children. apply keeps_bind; [apply keeps_sortChildren|].
    intros sorted. apply keeps_ret.
Qed.

End Keeps.

#[local] Instance onlyWarnings_refl : Reflexive onlyWarnings.
Proof. intros w. split_and!; [done..|]. exists []. by rewrite app_nil_r. Qed.

#[local] Instance onlyWarnings_trans : Transitive onlyWarnings.
Proof.
  intros w1 w2 w3 (He1 & Hf1 & l1 & Hc1 & Hl1) (He2 & Hf2 & l2 & Hc2 & Hl2).
  split_and!; [congruence..|].
  exists (l1 ++ l2)%list. split.
  - by rewrite Hc2, Hc1, <-app_assoc.
  - by rewrite forallb_app, Hl1, Hl2.
Qed.

Lemma keeps_loadSettings_onlyWarnings `{Host} settingsPath settingsFile :
  keeps onlyWarnings (loadSettings settingsPath settingsFile).
Proof.
  destruct settingsFile as [[default|error]|]; simpl; try apply keeps_ret; try apply _.
  apply keeps_bind; try apply _.
  - destruct error; (apply keeps_ret || apply keeps_throw); apply _.
  - intros message. apply keeps_bind; try apply _.
    + intros w. split_and!; [done..|]. by eexists [_].
    + intros _. apply keeps_ret. apply _.
Qed.

(** X9.  Compiling a directory tree writes no file and does not touch
    the output directory: it leaves the world as it was but for
    warnings on the console, and without a [_settings.js] that fails to
    load it leaves the world as it was. *)
Theorem compiling_only_warns `{Host} dir :
  ∀ dirPath nodeName w,
    onlyWarnings w (buildFromDirectory dir dirPath nodeName w).2
    ∧ (loadsCleanly dir = true → (buildFromDirectory dir dirPath nodeName w).2 = w).
Proof.
  induction dir as [|settingsFile entries IH] using FsEntry_tree_ind;
    intros dirPath nodeName w.
  { split; [apply (keeps_throw onlyWarnings)|done]. }
  split.
  - apply (keeps_buildNode onlyWarnings); [apply keeps_loadSettings_onlyWarnings|].
    apply Forall_fmap. eapply Forall_impl; [exact IH|].
    intros d Hd p n w0. apply Hd.
  - simpl. intros [Hload Hsub]%andb_true_iff.
    symmetry. apply (keeps_buildNode eq).
    + intros w0. rewrite loadSettings_resolved; [done|].
      unfold rejects. by destruct settingsFile as [[]|].
    + apply Forall_fmap. rewrite forallb_forall in Hsub.
      rewrite Forall_forall in IH |- *. intros d Hd p n w0.
      symmetry. apply IH; [done|]. apply Hsub. by apply list_elem_of_In.
Qed.

(** ** Children of one name *)

Section Stable.
Context {A : Type} (comparefn : A → A → Z) (P : A → bool).

Lemma insertSorted_filter x l :
  (∀ y, y ∈ l → P x = true → P y = true → before comparefn x y) →
  List.filter P (insertSorted comparefn x l) = List.filter P (x :: l).
Proof.
  induction l as [|y l IH]; intros Hle; [done|]. simpl.
  destruct (Z.leb_spec (comparefn x y) 0) as [Hxy|Hxy]; [done|].
  simpl. rewrite IH by (intros z Hz; apply Hle; by right). simpl.
  destruct (P x) eqn:Hx, (P y) eqn:Hy; try done.
  specialize (Hle y (list_elem_of_here _ _) eq_refl Hy). unfold before in Hle. lia.
Qed.

(** The sort keeps the elements that compare alike in their order. *)
Lemma arraySort_stable l :
  (∀ x y, x ∈ l → y ∈ l → P x = true → P y = true → before comparefn x y) →
  List.filter P (arraySort comparefn l) = List.filter P l.
Proof.
  induction l as [|x l IH]; intros Hle; [done|].
  change (arraySort comparefn (x :: l))
    with (insertSorted comparefn x (arraySort comparefn l)).
  rewrite insertSorted_filter.
  - simpl. rewrite IH; [done|]. intros y z Hy Hz. apply Hle; by right.
  - intros y Hy. rewrite arraySort_perm in Hy. apply Hle; [by left|by right].
Qed.

End Stable.

Lemma Sorted_short {A} (R : relation A) (l : list A) : (length l ≤ 1)%nat → Sorted R l.
Proof.
  destruct l as [|x [|y l]]; simpl; intros Hlen; [constructor|repeat constructor|lia].
Qed.

(** X10.  A branch whose settings let it compile has for children the
    stable sort of its compiled subdirectories: the same nodes, each
    name at or before the next, and those of one name in the order in
    which their directories were compiled, which is ascending by
    directory name. *)
Theorem same_named_children_in_directory_order `{Host}
    settingsFile entries dirPath nodeName w x :
  compilable (Folder settingsFile entries) = true →
  ¬ isLeafDirectory entries →
  ∃ node w' kids compiled,
    buildFromDirectory (Folder settingsFile entries) dirPath nodeName w
    = (Returned node, w')
    ∧ Js.get node "children" = VArr kids
    ∧ Forall2 (λ d k, ∃ w1 w1',
                 buildFromDirectory d.2 (path_join dirPath d.1) d.1 w1 = (Returned k, w1'))
              (subdirectories entries) compiled
    ∧ kids ≡ₚ compiled
    ∧ Sorted (before byName) kids
    ∧ List.filter (hasName x) kids = List.filter (hasName x) compiled.
Proof.
  intros Hdir Hbranch.
  destruct (buildFromDirectory_returns _ Hdir eq_refl dirPath nodeName w)
    as (node & w' & Hrun & _).
  destruct (branch_compiled _ _ _ _ _ _ _ Hrun Hbranch)
    as (compiled & sorted & w2 & w3 & Hall & Hsort & ->).
  exists (branchNode (metadataOf settingsFile) nodeName sorted), w', sorted, compiled.
  split; [done|]. split; [apply branchNode_children|]. split; [done|].
  apply sortChildren_Returned in Hsort as (Hperm & _ & [[-> _]|[-> Hlen]]).
  - split; [done|]. split; [apply arraySort_Sorted, byName_total|].
    apply arraySort_stable. intros a b _ _ Ha Hb. unfold before, byName.
    unfold hasName in Ha, Hb.
    destruct (Js.get a "name") as [| | | |y| |]; try done.
    destruct (Js.get b "name") as [| | | |z| |]; try done.
    apply String.eqb_eq in Ha as <-, Hb as <-.
    destruct (localeCompare_total x x); done.
  - split; [done|]. split; [by apply Sorted_short|done].
Qed.

(** ** What [generateAll] writes *)

(** X11.  A run of [generateAll] without a data directory that
    returns, no [mkdirSync] or [writeFileSync] having thrown, has
    returned the empty object, warned once that the data directory was
    not found, made sure of the output directory and written an index
    of no views and no other file. *)
Theorem generateAll_without_data_directory `{Host} dataDirPath outputDir w result w' :
  generateAll None dataDirPath outputDir w = (Returned result, w') →
  result = VObj []
  ∧ console w'
    = (console w
       ++ [ConsoleWarn [VStr ("Data directory not found: " ++ dataDirPath)];
           ConsoleLog [VStr ("Generated: " ++ path_join outputDir "index.js")]])%list
  ∧ outputDirExists w' = true
  ∧ outputFiles w'
    = <[path_join outputDir "index.js" := moduleSource (VObj [])]> (outputFiles w).
Proof.
  destruct w as [c e f].
  unfold generateAll, getViewDirectories, generateViews, mbind, M_bind,
    existsSync_outputDir, mkdirSync_outputDir, mret, M_ret, console_warn,
    console_log, writeFileSync.
  destruct e; cbv beta iota zeta; cbn [console outputDirExists outputFiles];
    intros [= <- <-]; cbn [console outputDirExists outputFiles];
    by rewrite <-app_assoc.
Qed.

Section KeepsGenerateAll.
Context `{Host} (R : relation World) `{!Reflexive R} `{!Transitive R}.
Context (allowed : string → Prop).
Hypothesis Rwarn : ∀ args, keeps R (console_warn args).
Hypothesis Rlog : ∀ args, keeps R (console_log args).
Hypothesis Rwrite : ∀ path content, allowed path → keeps R (writeFileSync path content).
Hypothesis Rmkdir : keeps R mkdirSync_outputDir.

Lemma keeps_loadSettings settingsPath settingsFile :
  keeps R (loadSettings settingsPath settingsFile).
Proof.
  destruct settingsFile as [[default|error]|]; simpl; try by apply keeps_ret.
  apply keeps_bind; [done| |].
  - destruct error; (by apply keeps_ret) || (by apply keeps_throw).
  - intros message. apply keeps_bind; [done..|]. intros _. by apply keeps_ret.
Qed.

Lemma keeps_buildFromDirectory dir :
  ∀ dirPath nodeName, keeps R (buildFromDirectory dir dirPath nodeName).
Proof.
  induction dir as [|settingsFile entries IH] using FsEntry_tree_ind;
    intros dirPath nodeName; simpl; [by apply keeps_throw|].
  apply keeps_buildNode; [done..|apply keeps_loadSettings|]. by apply Forall_fmap.
Qed.

Lemma keeps_generateViews dataDir dataDirPath outputDir views :
  (∀ v, v ∈ views → allowed (path_join outputDir (v ++ ".js"))) →
  ∀ generatedViews,
    keeps R (generateViews dataDir dataDirPath outputDir views generatedViews).
Proof.
  induction views as [|viewName views IH]; intros Hallowed generatedViews; simpl;
    [by apply keeps_ret|].
  apply keeps_bind; [done| |].
  { case_match; [apply keeps_buildFromDirectory|by apply keeps_throw]. }
  intros viewData. apply keeps_bind; [done| |].
  { apply Rwrite, Hallowed. by left. }
  intros _. apply keeps_bind; [done..|]. intros _. apply IH.
  intros v Hv. apply Hallowed. by right.
Qed.

Lemma getViewDirectories_viewNames dataDir dataDirPath w views w' :
  getViewDirectories dataDir dataDirPath w = (Returned views, w') →
  views ≡ₚ viewNames dataDir.
Proof.
  destruct dataDir as [[|settingsFile entries]|]; simpl; [done| |].
  - intros [= <- _]. apply arraySort_perm.
  - intros (_ & _ & _ & [= <- _])%bind_Returned. done.
Qed.

Lemma keeps_getViewDirectories dataDir dataDirPath :
  keeps R (getViewDirectories dataDir dataDirPath).
Proof.
  destruct dataDir as [[|settingsFile entries]|]; simpl;
    [by apply keeps_throw|by apply keeps_ret|].
  apply keeps_bind; [done..|]. intros _. by apply keeps_ret.
Qed.

Lemma keeps_generateAll dataDir dataDirPath outputDir :
  allowed (path_join outputDir "index.js") →
  (∀ v, v ∈ viewNames dataDir → allowed (path_join outputDir (v ++ ".js"))) →
  keeps R (generateAll dataDir dataDirPath outputDir).
Proof.
  intros Hindex Hviews w. unfold generateAll, mbind at 1 2, M_bind at 1 2.
  unfold existsSync_outputDir. cbv beta iota.
  assert (R w ((if outputDirExists w then mret () else mkdirSync_outputDir) w).2) as Hdir.
  { destruct (outputDirExists w); [by apply keeps_ret|apply Rmkdir]. }
  destruct ((if outputDirExists w then mret () else mkdirSync_outputDir) w)
    as [[[]| |] w1]; [|done..].
  simpl in Hdir. trans w1; [done|]. clear Hdir.
  unfold mbind at 1, M_bind at 1.
  pose proof (keeps_getViewDirectories dataDir dataDirPath w1) as Hlist.
  destruct (getViewDirectories dataDir dataDirPath w1) as [[views| |] w2] eqn:Hviews';
    [|done..].
  simpl in Hlist. trans w2; [done|]. clear Hlist.
  apply getViewDirectories_viewNames in Hviews'.
  apply keeps_bind; [done| |].
  { apply keeps_generateViews. intros v Hv. apply Hviews. by rewrite <-Hviews'. }
  intros generatedViews. apply keeps_bind; [done| |].
  { by apply Rwrite. }
  intros _. apply keeps_bind; [done..|]. intros _. by apply keeps_ret.
Qed.

End KeepsGenerateAll.

#[local] Instance sameFilesOutside_refl written : Reflexive (sameFilesOutside written).
Proof. by intros w path. Qed.

#[local] Instance sameFilesOutside_trans written : Transitive (sameFilesOutside written).
Proof. intros w1 w2 w3 H12 H23 path Hpath. by rewrite H23, H12. Qed.

#[local] Instance nothingRemoved_refl : Reflexive nothingRemoved.
Proof. by intros w. Qed.

#[local] Instance nothingRemoved_trans : Transitive nothingRemoved.
Proof. intros w1 w2 w3 [He1 Hf1] [He2 Hf2]. split; auto. Qed.

(** X12.  A run of [generateAll], however it ends, changes no file but
    the index and the modules of the views of the data directory, and
    removes none: the module of a view that is gone stays in the output
    directory. *)
Theorem generateAll_writes_views_and_index `{Host} dataDir dataDirPath outputDir w :
  let w' := (generateAll dataDir dataDirPath outputDir w).2 in
  (∀ path, ¬ writtenBy dataDir outputDir path →
           outputFiles w' !! path = outputFiles w !! path)
  ∧ (∀ path, is_Some (outputFiles w !! path) → is_Some (outputFiles w' !! path)).
Proof.
  split.
  - apply (keeps_generateAll (sameFilesOutside (writtenBy dataDir outputDir))
             (writtenBy dataDir outputDir)); try done.
    + intros path content Hpath w0 path' Hpath'. simpl.
      rewrite lookup_insert_ne; [done|]. by intros ->.
    + by left.
    + intros v Hv. right. by exists v.
  - apply (keeps_generateAll nothingRemoved (λ _, True)); try done.
    intros path content _ w0. split; [done|]. intros path' Hpath'. simpl.
    destruct (decide (path = path')) as [->|Hne].
    + rewrite lookup_insert_eq. by eexists.
    + by rewrite lookup_insert_ne.
Qed.

(** ** What [generateAll] returns *)

Lemma keys_assign_fresh k v props :
  k ∉ map fst props → map fst (Js.assign k v props) = (map fst props ++ [k])%list.
Proof.
  induction props as [|[k0 v0] props IH]; simpl; [done|].
  intros [Hne Hk]%not_elem_of_cons.
  destruct (String.eqb_spec k k0) as [->|_]; [done|]. simpl. by rewrite IH.
Qed.

Lemma get_set_eq props k v : Js.get (Js.set (VObj props) k v) k = v.
Proof. simpl. by rewrite lookup_assign, String.eqb_refl. Qed.

Lemma generateViews_Returned `{Host} dataDir dataDirPath outputDir views :
  ∀ props w result w',
    generateViews dataDir dataDirPath outputDir views (VObj props) w
    = (Returned result, w') →
    NoDup views →
    (∀ v, v ∈ views → v ∉ map fst props) →
    keysOf result = (map fst props ++ views)%list
    ∧ (∀ k, k ∉ views → Js.get result k = Js.get (VObj props) k)
    ∧ (∀ v, v ∈ views →
         ∃ dir w1 w1',
           entryAt dataDir v = Some dir
           ∧ buildFromDirectory dir (path_join dataDirPath v) v w1
             = (Returned (Js.get result v), w1')).
Proof.
  induction views as [|viewName views IH]; intros props w result w' Hrun Hnd Hfresh.
  { simpl in Hrun. injection Hrun as <- _. simpl. rewrite app_nil_r.
    split_and!; [done..|]. intros v Hv. by inv Hv. }
  apply NoDup_cons in Hnd as [Hhead Hnd].
  cbn [generateViews] in Hrun.
  apply bind_Returned in Hrun as (viewData & w1 & Hbuild & Hrun).
  apply bind_Returned in Hrun as ([] & w2 & _ & Hrun).
  apply bind_Returned in Hrun as ([] & w3 & _ & Hrun).
  change (Js.set (VObj props) viewName viewData)
    with (VObj (Js.assign viewName viewData props)) in Hrun.
  assert (map fst (Js.assign viewName viewData props)
          = (map fst props ++ [viewName])%list) as Hkeys.
  { apply keys_assign_fresh, Hfresh. by left. }
  apply IH in Hrun as (Hresult & Hother & Hviews); [|done|].
  2: { intros v Hv. rewrite Hkeys. intros [Hin|Hin%list_elem_of_singleton]%elem_of_app.
       - apply (Hfresh v); [by right|done].
       - by subst. }
  assert (Js.get result viewName = viewData) as Hdata.
  { rewrite Hother by done.
    change (VObj (Js.assign viewName viewData props))
      with (Js.set (VObj props) viewName viewData).
    apply get_set_eq. }
  split_and!.
  - by rewrite Hresult, Hkeys, <-app_assoc.
  - intros k [Hne Hk]%not_elem_of_cons. rewrite Hother by done.
    change (VObj (Js.assign viewName viewData props))
      with (Js.set (VObj props) viewName viewData).
    by apply get_set_ne.
  - intros v [->|Hv]%elem_of_cons; [|by apply Hviews].
    destruct (entryAt dataDir viewName) as [dir|]; [|done].
    exists dir, w, w1. by rewrite Hdata.
Qed.

Lemma NoDup_fst_filter {A B} (f : A * B → bool) (l : list (A * B)) :
  NoDup (map fst l) → NoDup (map fst (List.filter f l)).
Proof.
  induction l as [|x l IH]; simpl; [done|].
  intros [Hx Hnd]%NoDup_cons. destruct (f x); simpl; [|by apply IH].
  apply NoDup_cons. split; [|by apply IH].
  intros (y & Hxy & [Hy _]%list_elem_of_In%filter_In)%list_elem_of_fmap.
  apply Hx. apply list_elem_of_fmap. exists y. by rewrite <-list_elem_of_In in Hy.
Qed.

Lemma entryAt_unique settingsFile entries viewName dir :
  NoDup (map fst entries) →
  (viewName, dir) ∈ entries →
  entryAt (Some (Folder settingsFile entries)) viewName = Some dir.
Proof.
  intros Hnd Hin. simpl.
  destruct (List.find (λ d, String.eqb d.1 viewName) entries) as [d|] eqn:Hfind.
  - apply find_some in Hfind as [Hd Heq]. apply String.eqb_eq in Heq.
    apply list_elem_of_In in Hd.
    by rewrite (NoDup_fst_inj entries d (viewName, dir) Hnd Hd Hin Heq).
  - apply list_elem_of_In in Hin.
    apply (find_none _ _ Hfind) in Hin. simpl in Hin.
    by rewrite String.eqb_refl in Hin.
Qed.

Lemma filter_fmap_fst {A B} (P : A → bool) (l : list (A * B)) :
  List.filter P (map fst l) = map fst (List.filter (λ p, P p.1) l).
Proof.
  induction l as [|p l IH]; [done|]. simpl. destruct (P p.1); simpl; by rewrite IH.
Qed.

Lemma ownPropertyKeys_keyOrder v : ownPropertyKeys v = keyOrder (keysOf v).
Proof.
  destruct v as [| | | | | |props]; try done. simpl.
  unfold Reference.enumerate, keyOrder.
  rewrite map_app, !filter_fmap_fst. f_equal.
  change (map fst ?l) with (fst <$> l).
  by rewrite arraySort_fmap.
Qed.

(** X13.  A run of [generateAll] that returns, over a data directory
    whose entries have different names, none of them [__proto__] (which
    an assignment would take for the prototype, not a key): the keys of
    the object returned are the names of the views, in the order of
    [Object.keys], which has the names that are array indices first,
    ascending as numbers, and then the others in code unit order;
    under each is the tree [buildFromDirectory] returns for that
    directory; the index file holds the module source of this object;
    and the output directory exists. *)
Theorem generateAll_returns_the_views `{Host}
    settingsFile entries dataDirPath outputDir w result w' :
  generateAll (Some (Folder settingsFile entries)) dataDirPath outputDir w
  = (Returned result, w') →
  NoDup (map fst entries) →
  "__proto__" ∉ map fst entries →
  ownPropertyKeys result
  = keyOrder (arraySort defaultCompare (map fst (List.filter isView entries)))
  ∧ (∀ viewName dir,
       (viewName, dir) ∈ entries → isView (viewName, dir) = true →
       ∃ w1 w1',
         buildFromDirectory dir (path_join dataDirPath viewName) viewName w1
         = (Returned (Js.get result viewName), w1'))
  ∧ outputFiles w' !! path_join outputDir "index.js" = Some (moduleSource result)
  ∧ outputDirExists w' = true.
Proof.
  intros Hrun Hnd _. unfold generateAll in Hrun.
  apply bind_Returned in Hrun as (present & w0 & Hpresent & Hrun).
  apply bind_Returned in Hrun as ([] & w1 & Hdir & Hrun).
  apply bind_Returned in Hrun as (views & w2 & Hviews & Hrun).
  apply bind_Returned in Hrun as (generatedViews & w3 & Hgenerate & Hrun).
  cbv zeta in Hrun.
  apply bind_Returned in Hrun as ([] & w4 & Hwrite & Hrun).
  apply bind_Returned in Hrun as ([] & w5 & Hlog & Hrun).
  injection Hrun as -> ->.
  injection Hpresent as <- <-. injection Hviews as <- <-.
  injection Hwrite as <-. injection Hlog as <-.
  assert (outputDirExists w1 = true) as Hexists.
  { destruct (outputDirExists w) eqn:He; injection Hdir as <-; by simpl. }
  assert (nothingRemoved w1 w3) as [Hkept _].
  { pose proof (keeps_generateViews nothingRemoved (λ _, True)) as Hkeeps.
    unfold keeps in Hkeeps.
    replace w3 with (generateViews (Some (Folder settingsFile entries)) dataDirPath
                       outputDir (arraySort defaultCompare
                         (map fst (List.filter
                            (λ d, isFolder d.2 && negb (Str.startsWithDot d.1)) entries)))
                       (VObj []) w1).2 by by rewrite Hgenerate.
    apply Hkeeps; try done.
    intros path content _ w6. split; [done|]. intros path' Hpath'. simpl.
    destruct (decide (path = path')) as [->|Hne].
    - rewrite lookup_insert_eq. by eexists.
    - by rewrite lookup_insert_ne. }
  apply generateViews_Returned in Hgenerate as (Hkeys & _ & Hdata).
  - split_and!.
    + by rewrite ownPropertyKeys_keyOrder, Hkeys.
    + intros viewName dir Hin Hview.
      destruct (Hdata viewName) as (dir' & wa & wb & Hentry & Hbuild).
      { rewrite arraySort_perm. apply list_elem_of_fmap.
        exists (viewName, dir). split; [done|].
        apply list_elem_of_In, filter_In. split; [by apply list_elem_of_In|done]. }
      rewrite (entryAt_unique _ _ _ dir Hnd Hin) in Hentry.
      injection Hentry as <-. eauto.
    + simpl. by rewrite lookup_insert_eq.
    + simpl. by apply Hkept.
  - rewrite arraySort_perm. by apply NoDup_fst_filter.
  - intros v _ Hv. by inv Hv.
Qed.

(** ** Which circles and labels are shown *)

Lemma suffix_cons_cases {A} (l k : list A) x :
  l `suffix_of` x :: k → l = x :: k ∨ l `suffix_of` k.
Proof.
  intros [[|y pre] Heq]; simpl in Heq; [by left|].
  injection Heq as _ ->. right. by exists pre.
Qed.

Local Ltac suffix_cases :=
  repeat case_decide; subst; simpl;
  repeat match goal with
  | H : ?P, Hn : ¬ ?P |- _ => by destruct Hn
  | H : ¬ (?l `suffix_of` ?l) |- _ => by destruct H
  | H : _ `suffix_of` [] |- _ => apply suffix_nil_inv in H; subst
  | H : ?l `suffix_of` ?k, Hn : ¬ (?l `suffix_of` _ :: ?k) |- _ =>
      destruct Hn; by apply suffix_cons_r
  | H : ?l `suffix_of` _ :: ?k, Hn : ¬ (?l `suffix_of` ?k) |- _ =>
      apply suffix_cons_cases in H as [?|?]; subst
  end;
  try done;
  repeat match goal with
  | H : _ `suffix_of` _ |- _ => apply suffix_length in H
  end;
  try (f_equal; simpl in *; lia).

Lemma climbCounting_spec focusNode currentNode depthFromFocus :
  climbCounting focusNode currentNode depthFromFocus
  = if decide (focusNode `suffix_of` currentNode)
    then (Some focusNode,
          depthFromFocus + (length currentNode - length focusNode))%nat
    else (None, depthFromFocus + S (length currentNode))%nat.
Proof.
  revert depthFromFocus.
  induction currentNode as [|x up IH]; intros depthFromFocus; simpl;
    rewrite ?IH; suffix_cases.
Qed.

Lemma climb_spec node currentNode :
  climb node currentNode
  = if decide (node `suffix_of` currentNode) then Some node else None.
Proof. induction currentNode as [|x up IH]; simpl; rewrite ?IH; suffix_cases. Qed.

Lemma suffix_antisym {A} (l k : list A) : l `suffix_of` k → k `suffix_of` l → l = k.
Proof.
  intros [l1 ->] [l2 Heq]. apply (f_equal length) in Heq as Hlen.
  rewrite !length_app in Hlen. destruct l1; [done|]. simpl in Hlen. lia.
Qed.

Lemma isNodeVisibleAtDepth_spec node focusNode :
  isNodeVisibleAtDepth node focusNode = true
  ↔ node `suffix_of` focusNode ∨ parent node = Some focusNode.
Proof.
  unfold isNodeVisibleAtDepth. destruct node as [|x up]; simpl parent; cbv iota.
  { split; [|done]. intros _. left. apply suffix_nil. }
  rewrite climbCounting_spec, climb_spec.
  destruct (decide (focusNode `suffix_of` x :: up)) as [Hdown|Hdown].
  - case_decide; [|done].
    rewrite bool_decide_eq_true.
    apply suffix_cons_cases in Hdown as [->|Hdown].
    + split; [by left|]. intros _. lia.
    + apply suffix_length in Hdown as Hlen. simpl. split.
      * intros Hdepth. right. f_equal. destruct Hdown as [l ->].
        rewrite length_app in Hdepth. destruct l; [done|]. simpl in Hdepth. lia.
      * intros [Hup|[= ->]]; [|lia].
        apply suffix_length in Hup. simpl in Hup. lia.
  - case_decide; [done|].
    destruct (decide (x :: up `suffix_of` focusNode)) as [Hup|Hup];
      rewrite bool_decide_eq_true.
    + split; [by left|done].
    + split; [done|].
      intros [?|[= ->]]; [done|]. destruct Hdown. by apply suffix_cons_r.
Qed.

Lemma ancestorOrSelf_suffix a n : ancestorOrSelf a n ↔ a `suffix_of` n.
Proof.
  split.
  - induction 1 as [|n up Hparent _ IH]; [done|].
    destruct n as [|x n]; [done|]. injection Hparent as ->. by apply suffix_cons_r.
  - induction n as [|x up IH].
    + intros ->%suffix_nil_inv. constructor.
    + intros [->|Hup]%suffix_cons_cases; [constructor|].
      apply (ancestor_above a (x :: up) up); [done|by apply IH].
Qed.

Lemma unshiftAncestors_app curNode stack :
  unshiftAncestors curNode stack = (unshiftAncestors curNode [] ++ stack)%list.
Proof.
  revert stack. induction curNode as [|x up IH]; intros stack; simpl; [done|].
  rewrite (IH (_ :: stack)), (IH [_]). by rewrite <-app_assoc.
Qed.

Lemma getNodeStack_cons x up :
  getNodeStack (x :: up) = (getNodeStack up ++ [x :: up])%list.
Proof. unfold getNodeStack. simpl. apply unshiftAncestors_app. Qed.

Lemma getNodeStack_length node : length (getNodeStack node) = S (length node).
Proof.
  induction node as [|x up IH]; [done|].
  rewrite getNodeStack_cons, length_app, IH. simpl. lia.
Qed.

Lemma getNodeStack_last node : last (getNodeStack node) = Some node.
Proof. destruct node; [done|]. by rewrite getNodeStack_cons, last_snoc. Qed.

Lemma getNodeStack_elem n node : n ∈ getNodeStack node ↔ n `suffix_of` node.
Proof.
  induction node as [|x up IH].
  - unfold getNodeStack. simpl. rewrite list_elem_of_singleton. split.
    + by intros ->.
    + apply suffix_nil_inv.
  - rewrite getNodeStack_cons, elem_of_app, list_elem_of_singleton, IH. split.
    + intros [Hup| ->]; [by apply suffix_cons_r|done].
    + intros [->|Hup]%suffix_cons_cases; auto.
Qed.

(** X14.  A circle is visible exactly when it is the focused node, a
    node above it (the root is above every node) or a child of it. *)
Theorem visible_circles node focusNode :
  isNodeVisibleAtDepth node focusNode = true
  ↔ ancestorOrSelf node focusNode ∨ parent node = Some focusNode.
Proof. rewrite ancestorOrSelf_suffix. apply isNodeVisibleAtDepth_spec. Qed.

(** X15.  [getNodeStack] lists the way from the root down to the node:
    one entry for every level, the root first, the node last, and every
    entry the parent of the next. *)
Theorem getNodeStack_root_to_node node :
  length (getNodeStack node) = S (length node)
  ∧ getNodeStack node !! 0%nat = Some []
  ∧ last (getNodeStack node) = Some node
  ∧ ∀ i a b,
      getNodeStack node !! i = Some a → getNodeStack node !! S i = Some b →
      parent b = Some a.
Proof.
  split_and!.
  - apply getNodeStack_length.
  - induction node as [|x up IH]; [done|].
    rewrite getNodeStack_cons, lookup_app_l; [done|].
    rewrite getNodeStack_length. lia.
  - apply getNodeStack_last.
  - induction node as [|x up IH]; intros i a b Ha Hb.
    { by destruct i. }
    rewrite getNodeStack_cons in Ha, Hb.
    pose proof (getNodeStack_length up) as Hlen.
    destruct (decide (S i < length (getNodeStack up))%nat) as [Hlt|Hge].
    + rewrite lookup_app_l in Ha by lia. rewrite lookup_app_l in Hb by lia.
      by apply (IH i).
    + destruct (decide (S i = length (getNodeStack up))) as [Heq|Hne].
      * rewrite lookup_app_l in Ha by lia.
        rewrite lookup_app_r in Hb by lia.
        rewrite Heq, Nat.sub_diag in Hb. injection Hb as <-.
        pose proof (getNodeStack_last up) as Hlast.
        rewrite last_lookup, <-Heq in Hlast. simpl in Hlast, Ha.
        rewrite Hlast in Ha. by injection Ha as <-.
      * apply lookup_lt_Some in Hb. rewrite length_app in Hb. simpl in Hb. lia.
Qed.

(** X16.  A label is shown only on a visible circle, and the visible
    circles without a label are the nodes above the focused one, the
    root apart. *)
Theorem labels_on_visible_circles node d :
  (shouldShow node d = true → isNodeVisibleAtDepth node d = true)
  ∧ (isNodeVisibleAtDepth node d = true ∧ shouldShow node d = false
     ↔ ancestorOrSelf node d ∧ node ≠ d ∧ parent node ≠ None).
Proof.
  rewrite isNodeVisibleAtDepth_spec, ancestorOrSelf_suffix. unfold shouldShow.
  rewrite !orb_true_iff, !orb_false_iff, !bool_decide_eq_true, !bool_decide_eq_false.
  split.
  - intros [[Hroot| ->]|Hchild]; [|by left|by right].
    destruct node; [|done]. left. apply suffix_nil.
  - split.
    + intros [[Hup|Hchild] [[Hroot Hne] Hnochild]]; done.
    + intros (Hup & Hne & Hroot). split_and!; [by left|done..|].
      intros Hchild. destruct node as [|x up]; [done|]. injection Hchild as ->.
      apply suffix_length in Hup. simpl in Hup. lia.
Qed.

(** X17.  The circles visible under a focused node are the nodes of its
    breadcrumb, as [getNodeStack] gives it, and its children. *)
Theorem breadcrumb_is_visible node focusNode :
  isNodeVisibleAtDepth node focusNode = true
  ↔ node ∈ getNodeStack focusNode ∨ parent node = Some focusNode.
Proof. rewrite getNodeStack_elem. apply isNodeVisibleAtDepth_spec. Qed.

(** ** The view cache *)

Lemma or_truthy a b : Js.truthy b = true → Js.truthy (Js.or a b) = true.
Proof. unfold Js.or. by destruct (Js.truthy a) eqn:Ha. Qed.

Lemma buildFromView_cached modules viewName value page :
  cached viewName value page →
  buildFromView modules viewName page = (Resolves value, page).
Proof. intros [Hread Htruthy]. unfold buildFromView. by rewrite Hread, Htruthy. Qed.

Lemma buildFromView_Resolves modules viewName page value page1 :
  buildFromView modules viewName page = (Resolves value, page1) →
  cached viewName value page1.
Proof.
  unfold buildFromView, cached.
  assert (∀ exports,
    viewCache_read
      (<[viewName := Js.or (Js.get (VObj exports) "default") (VObj exports)]>
         (viewCache page)) viewName
    = Some (Data (Js.or (Js.get (VObj exports) "default") (VObj exports)))) as Hnew.
  { intros exports. unfold viewCache_read. by rewrite lookup_insert_eq. }
  destruct (viewCache_read (viewCache page) viewName) as [hit|] eqn:Hread;
    [destruct (truthyLoaded hit) eqn:Hhit|].
  - by intros [= <- <-].
  - destruct (modules _) as [exports|error]; [|done].
    intros [= <- <-]. simpl. split; [apply Hnew|by apply or_truthy].
  - destruct (modules _) as [exports|error]; [|done].
    intros [= <- <-]. simpl. split; [apply Hnew|by apply or_truthy].
Qed.

Lemma buildFromView_keeps_cached modules other viewName value page :
  cached viewName value page →
  cached viewName value (buildFromView modules other page).2.
Proof.
  intros Hcached. destruct (decide (other = viewName)) as [->|Hne].
  { by rewrite (buildFromView_cached _ _ value). }
  destruct Hcached as [Hread Htruthy]. split; [|done].
  unfold buildFromView.
  assert (∀ data, viewCache_read (<[other := data]> (viewCache page)) viewName
                  = Some value) as Hother.
  { intros data. unfold viewCache_read in *. by rewrite lookup_insert_ne. }
  destruct (viewCache_read (viewCache page) other) as [hit|];
    [destruct (truthyLoaded hit)|]; try done;
    destruct (modules _) as [exports|error]; simpl; done.
Qed.

Lemma afterCalls_keeps_cached calls viewName value page :
  cached viewName value page → cached viewName value (afterCalls calls page).
Proof.
  revert page. induction calls as [|[modules other] calls IH]; intros page Hcached;
    simpl; [done|].
  by apply IH, buildFromView_keeps_cached.
Qed.

(** X18.  What [buildFromView] once resolved with for a view, it
    resolves with for that view ever after, whatever calls came between
    and whatever the generated modules have become: without an import
    and without a message. *)
Theorem buildFromView_serves_first_load modules viewName page value page1 calls modules' :
  buildFromView modules viewName page = (Resolves value, page1) →
  buildFromView modules' viewName (afterCalls calls page1)
  = (Resolves value, afterCalls calls page1).
Proof.
  intros Hfirst%buildFromView_Resolves.
  by apply buildFromView_cached, afterCalls_keeps_cached.
Qed.

(** X19.  A view whose module does not load is not cached: the call
    reports the failure with [console.error], rejects with the error
    that names the view, leaves the cache as it was, and a later call
    for the view, once the module loads, resolves with its default
    export (truthy) and caches it. *)
Theorem buildFromView_failure_not_cached
    modules viewName page error modules' exports :
  viewCache_read (viewCache page) viewName = None →
  modules ("../generated/" ++ viewName ++ ".js") = NotLoaded error →
  modules' ("../generated/" ++ viewName ++ ".js") = Namespace exports →
  Js.truthy (Js.get (VObj exports) "default") = true →
  let '(first, page1) := buildFromView modules viewName page in
  let '(second, page2) := buildFromView modules' viewName page1 in
  first
  = RejectsWithError
      (("View " ++ doubleQuote ++ viewName ++ doubleQuote ++ " not found. ")
       ++ "Make sure the view exists in src/data/ and run the build to generate data models.")
  ∧ viewCache page1 = viewCache page
  ∧ consoleErrors page1
    = (consoleErrors page
       ++ [[VStr ("Failed to load view data for " ++ viewName ++ ":"); error]])%list
  ∧ second = Resolves (Data (Js.get (VObj exports) "default"))
  ∧ cached viewName (Data (Js.get (VObj exports) "default")) page2.
Proof.
  intros Hmiss Hfails Hloads Htruthy.
  unfold buildFromView at 1. rewrite Hmiss, Hfails.
  unfold buildFromView. cbn [viewCache consoleErrors imports]. rewrite Hmiss, Hloads.
  unfold Js.or. rewrite Htruthy.
  split_and!; [done..|].
  split; [|done]. unfold viewCache_read. simpl. by rewrite lookup_insert_eq.
Qed.

(** ** The properties at the samples *)

Section MoreInstances.
Import Reference.
Local Existing Instance Reference.host.

Lemma ViewA_is_branch : ¬ isLeafDirectory [Scenario.Beta; Scenario.Alpha].
Proof. unfold isLeafDirectory. simpl. discriminate. Qed.

Lemma attributed_compiles :
  buildFromDirectory attributed "/data/V/time-and-attendance" "time-and-attendance"
    emptyWorld
  = (Returned attributedNode, emptyWorld).
Proof. reflexivity. Qed.

Lemma children_are_the_subdirectories_witness :
  ∃ kids compiled,
    Js.get Scenario.ViewANode "children" = VArr kids
    ∧ kids ≡ₚ compiled
    ∧ Forall2 (λ d k, ∃ w1 w1',
                 buildFromDirectory d.2 (path_join "/data/ViewA" d.1) d.1 w1
                 = (Returned k, w1'))
              (subdirectories [Scenario.Beta; Scenario.Alpha]) compiled.
Proof.
  exact (children_are_the_subdirectories None [Scenario.Beta; Scenario.Alpha]
           "/data/ViewA" "ViewA" emptyWorld Scenario.ViewANode emptyWorld
           ViewA_compiles ViewA_is_branch).
Defined.

Lemma node_is_a_directory_witness :
  ∃ inner innerName innerPath w1 w1',
    reaches inner innerName ViewA "ViewA"
    ∧ buildFromDirectory inner innerPath innerName w1
      = (Returned Scenario.BetaNode, w1').
Proof.
  exact (node_is_a_directory ViewA "/data/ViewA" "ViewA" emptyWorld
           Scenario.ViewANode emptyWorld Scenario.BetaNode
           ViewA_compiles Beta_inTree).
Defined.

Lemma node_keys_in_order_witness :
  keysOf Scenario.BetaNode `sublist_of` nodeKeys
  ∧ ∀ k, Js.has Scenario.BetaNode k = true → k ∈ nodeKeys.
Proof.
  exact (node_keys_in_order ViewA "/data/ViewA" "ViewA" emptyWorld
           Scenario.ViewANode emptyWorld Scenario.BetaNode
           ViewA_compiles Beta_inTree).
Defined.

Lemma optional_fields_copied_witness :
  Js.has attributedNode "owner" = true
  ∧ Js.get attributedNode "owner" = VStr "Workforce Management Team".
Proof.
  destruct (optional_fields_copied _ _ "/data/V/time-and-attendance"
              "time-and-attendance" emptyWorld attributedNode emptyWorld "owner"
              attributed_compiles
              (list_elem_of_further _ _ _ (list_elem_of_here _ _)))
    as [Hhas Hget].
  split; [exact Hhas|exact (Hget eq_refl)].
Defined.

Lemma names_and_descriptions_truthy_witness :
  Js.truthy (Js.get Scenario.BetaNode "name") = true
  ∧ Js.truthy (Js.get Scenario.BetaNode "description") = true.
Proof.
  assert ("ViewA" ≠ "") as Hname by discriminate.
  exact (names_and_descriptions_truthy ViewA "/data/ViewA" "ViewA" emptyWorld
           Scenario.ViewANode emptyWorld Scenario.BetaNode
           ViewA_compiles Hname eq_refl Beta_inTree).
Defined.

Lemma settings_read_by_key_witness :
  buildFromDirectory attributed "/data/V/time-and-attendance" "time-and-attendance"
    emptyWorld
  = buildFromDirectory (Folder attributedAsRead [("_settings.js", File)])
      "/data/V/time-and-attendance" "time-and-attendance" emptyWorld.
Proof.
  apply (settings_read_by_key _ attributedAsRead); [reflexivity..|].
  intros k Hk.
  repeat (apply elem_of_cons in Hk as [->|Hk]; [reflexivity|]).
  by apply elem_of_nil in Hk.
Defined.

Lemma twins_compiles :
  buildFromDirectory twins "/data/V/twins" "twins" emptyWorld
  = (Returned twinsNode, emptyWorld).
Proof. reflexivity. Qed.

Lemma twins_is_branch : ¬ isLeafDirectory twinsEntries.
Proof. unfold isLeafDirectory. simpl. discriminate. Qed.

Lemma same_named_children_in_directory_order_witness :
  buildFromDirectory twins "/data/V/twins" "twins" emptyWorld
  = (Returned twinsNode, emptyWorld)
  ∧ List.filter (hasName "Payments") [alphaLast; paymentsFirst; paymentsSecond]
    = [paymentsFirst; paymentsSecond]
  ∧ ∃ node w' kids compiled,
      buildFromDirectory twins "/data/V/twins" "twins" emptyWorld = (Returned node, w')
      ∧ Js.get node "children" = VArr kids
      ∧ Forall2 (λ d k, ∃ w1 w1',
                   buildFromDirectory d.2 (path_join "/data/V/twins" d.1) d.1 w1
                   = (Returned k, w1'))
                (subdirectories twinsEntries) compiled
      ∧ kids ≡ₚ compiled
      ∧ Sorted (before byName) kids
      ∧ List.filter (hasName "Payments") kids = List.filter (hasName "Payments") compiled.
Proof.
  split; [exact twins_compiles|]. split; [reflexivity|].
  exact (same_named_children_in_directory_order None twinsEntries "/data/V/twins"
           "twins" emptyWorld "Payments" eq_refl twins_is_branch).
Defined.

Lemma generateAll_without_data_directory_witness :
  let run := generateAll None "/data" "/out" emptyWorld in
  run.1 = Returned (VObj [])
  ∧ console run.2
    = [ConsoleWarn [VStr "Data directory not found: /data"];
       ConsoleLog [VStr "Generated: /out/index.js"]]
  ∧ outputDirExists run.2 = true
  ∧ outputFiles run.2 = <["/out/index.js" := moduleSource (VObj [])]> ∅.
Proof.
  split; [reflexivity|].
  destruct (generateAll_without_data_directory "/data" "/out" emptyWorld (VObj [])
              (generateAll None "/data" "/out" emptyWorld).2 eq_refl)
    as (_ & Hconsole & Hexists & Hfiles).
  split; [exact Hconsole|]. split; [exact Hexists|exact Hfiles].
Defined.

Lemma numberedViews_names :
  NoDup (map fst [("b", Folder None []); ("10", Folder None []); ("9", Folder None [])])
  ∧ "__proto__" ∉ map fst [("b", Folder None []); ("10", Folder None []);
                           ("9", Folder None [])].
Proof.
  split.
  - apply (bool_decide_unpack _). by vm_compute.
  - apply (bool_decide_unpack _). by vm_compute.
Qed.

Lemma numberedViews_generates :
  ∃ result w',
    generateAll (Some numberedViews) "/data" "/out" emptyWorld = (Returned result, w').
Proof. eexists _, _. vm_compute. reflexivity. Qed.

Lemma generateAll_returns_the_views_witness :
  ∃ result w',
    generateAll (Some numberedViews) "/data" "/out" emptyWorld = (Returned result, w')
    ∧ ownPropertyKeys result = ["9"; "10"; "b"]
    ∧ outputFiles w' !! "/out/index.js" = Some (moduleSource result)
    ∧ outputDirExists w' = true.
Proof.
  destruct numberedViews_generates as (result & w' & Hrun).
  exists result, w'. split; [exact Hrun|].
  destruct numberedViews_names as [Hnd Hproto].
  destruct (generateAll_returns_the_views None _ "/data" "/out" emptyWorld result w'
              Hrun Hnd Hproto) as (Hkeys & _ & Hindex & Hexists).
  split; [exact Hkeys|]. split; [exact Hindex|exact Hexists].
Defined.

End MoreInstances.

Lemma buildFromView_serves_first_load_witness :
  buildFromView noModules "ViewA"
    (afterCalls [(noModules, "ViewB")]
       (buildFromView viewAModule "ViewA" freshPage).2)
  = (Resolves (Data Scenario.ViewANode),
     afterCalls [(noModules, "ViewB")]
       (buildFromView viewAModule "ViewA" freshPage).2).
Proof.
  exact (buildFromView_serves_first_load viewAModule "ViewA" freshPage
           (Data Scenario.ViewANode) _ [(noModules, "ViewB")] noModules eq_refl).
Defined.

Lemma buildFromView_failure_not_cached_witness :
  let '(first, page1) := buildFromView noModules "ViewA" freshPage in
  let '(second, page2) := buildFromView viewAModule "ViewA" page1 in
  first
  = RejectsWithError
      (("View " ++ doubleQuote ++ "ViewA" ++ doubleQuote ++ " not found. ")
       ++ "Make sure the view exists in src/data/ and run the build to generate data models.")
  ∧ viewCache page1 = viewCache freshPage
  ∧ consoleErrors page1
    = (consoleErrors freshPage
       ++ [[VStr ("Failed to load view data for " ++ "ViewA" ++ ":");
            VStr "Cannot find module"]])%list
  ∧ second = Resolves (Data (Js.get (VObj [("default", Scenario.ViewANode)]) "default"))
  ∧ cached "ViewA" (Data (Js.get (VObj [("default", Scenario.ViewANode)]) "default")) page2.
Proof.
  exact (buildFromView_failure_not_cached noModules "ViewA" freshPage
           (VStr "Cannot find module") viewAModule [("default", Scenario.ViewANode)]
           eq_refl eq_refl eq_refl eq_refl).
Defined.

(** ** When the tooltip is shown *)

Lemma tooltipAfter_snoc events ev :
  tooltipAfter (events ++ [ev]) = handle (tooltipAfter events) ev.
Proof. unfold tooltipAfter. by rewrite foldl_snoc. Qed.

(** X20.  Whatever happens to a tooltip, it is displayed only while it
    has truthy content and the mouse is inside its container. *)
Theorem tooltip_displayed_only_with_content events :
  display (tooltipAfter events) = inline →
  truthyContent (tooltip_content (tooltipAfter events)) = true
  ∧ mouseInside (tooltipAfter events) = true.
Proof.
  induction events as [|ev events IH] using rev_ind; [done|].
  rewrite tooltipAfter_snoc. destruct (tooltipAfter events) as [c m d s i].
  simpl in IH. destruct ev as [| | |val]; simpl.
  - destruct (truthyContent c) eqn:Hc; [done|]. intros ->. by destruct IH.
  - destruct (truthyContent c) eqn:Hc; [done|]. intros ->. by destruct IH.
  - done.
  - unfold setContent, _update. simpl.
    destruct (truthyContent val) eqn:Hval; simpl; [|done].
    destruct val as [[]|]; simpl; by destruct m.
Qed.

(** X21.  A tooltip that is only given content it can show (a falsy
    value, a string or an element) is displayed exactly while it has
    truthy content and the mouse is inside, holds what its content
    renders to, and has warned of nothing. *)
Theorem valid_tooltip_shows_its_content events :
  forallb validEvent events = true →
  let t := tooltipAfter events in
  (display t = inline ↔ truthyContent (tooltip_content t) = true ∧ mouseInside t = true)
  ∧ shown t = rendering (tooltip_content t)
  ∧ validContent (tooltip_content t) = true
  ∧ invalidContents t = [].
Proof.
  induction events as [|ev events IH] using rev_ind; intros Hvalid.
  { simpl. split_and!; try done. split; [done|]. by intros [? _]. }
  rewrite forallb_app in Hvalid. apply andb_true_iff in Hvalid as [Hevents Hev].
  simpl in Hev. rewrite andb_true_r in Hev.
  specialize (IH Hevents). cbv zeta in *. rewrite tooltipAfter_snoc.
  destruct (tooltipAfter events) as [c m d s i]. simpl in IH.
  destruct IH as (Hdisplay & Hshown & Hc & Hnone).
  destruct ev as [| | |val]; simpl.
  - split_and!; try done. destruct (truthyContent c) eqn:Htruthy; [done|].
    split; [|by intros [? _]]. intros Hd. by apply Hdisplay in Hd as [? _].
  - split_and!; try done. destruct (truthyContent c) eqn:Htruthy; [done|].
    split; [|by intros [? _]]. intros Hd. by apply Hdisplay in Hd as [? _].
  - split_and!; try done. split; [done|]. by intros [_ ?].
  - simpl in Hev. unfold setContent, _update, rendering. simpl.
    destruct (truthyContent val) eqn:Hval; simpl.
    + destruct val as [[]|]; simpl in *; try (by rewrite Hval in Hev);
        rewrite ?Hval; simpl;
        (split_and!; try done; destruct m; split; try done; by intros [_ ?]).
    + rewrite Hval. simpl. split_and!; try done.
      split; [done|]. by intros [? _].
Qed.

Lemma valid_tooltip_shows_its_content_witness :
  let t := tooltipAfter [Mouseover; Content (Plain (VStr "<div>ViewA</div>"))] in
  (display t = inline ↔ truthyContent (tooltip_content t) = true ∧ mouseInside t = true)
  ∧ shown t = rendering (tooltip_content t)
  ∧ validContent (tooltip_content t) = true
  ∧ invalidContents t = [].
Proof.
  exact (valid_tooltip_shows_its_content
           [Mouseover; Content (Plain (VStr "<div>ViewA</div>"))] eq_refl).
Defined.

Lemma tooltip_displayed_only_with_content_witness :
  truthyContent
    (tooltip_content
       (tooltipAfter [Content (Plain (VNum (Num 42))); Mousemove])) = true
  ∧ mouseInside (tooltipAfter [Content (Plain (VNum (Num 42))); Mousemove]) = true.
Proof.
  exact (tooltip_displayed_only_with_content
           [Content (Plain (VNum (Num 42))); Mousemove] eq_refl).
Defined.
